(** * klear: the address input and the multi-image input

    A shallow embedding of two components of the form-input library:

    - [AddressInput] (places autocomplete with geolocation), whose handlers
      [handleSelect], [handleAutoLocation], the [PlacesAutocomplete] error
      callback and the [Select] input-change callback are embedded as
      computations that emit the calls they make (state setters, the bound
      field's [onChange], provider calls, console output) in program order;
    - [MultiImageInput], whose [validateFiles], [handleDrop] and
      [handleFileSelect] are embedded as pure functions over file lists.

    JavaScript numbers that are coordinates are IEEE-754 doubles and are kept
    as primitive floats; they are only ever moved around, never computed
    with.  Strings are kept as their UTF-8 bytes. *)

From Stdlib Require Import List String Ascii Bool ZArith Lia PrimFloat.
From Stdlib Require DecimalString.
Import ListNotations.
Open Scope string_scope.
Open Scope list_scope.

(** ** JavaScript helpers used by the components *)

Module Js.

(** Truthiness of a string: only the empty string is falsy. *)
Definition truthy (s : string) : bool :=
  match s with EmptyString => false | String _ _ => true end.

(** [a || b] on strings. *)
Definition or_else (a b : string) : string :=
  if truthy a then a else b.

(** [a || b] where [a] may be [undefined]. *)
Definition opt_or_else (a : option string) (b : string) : string :=
  match a with
  | Some s => or_else s b
  | None => b
  end.

(** [s.split(sep)] for a one-character separator: never empty. *)
Fixpoint split (sep : ascii) (s : string) : list string :=
  match s with
  | EmptyString => [EmptyString]
  | String c rest =>
      if Ascii.eqb c sep then EmptyString :: split sep rest
      else match split sep rest with
           | piece :: pieces => String c piece :: pieces
           | [] => [String c EmptyString]
           end
  end.

(** [xs.slice(1)] *)
Definition slice1 (xs : list string) : list string := tl xs.

(** [xs.join(sep)] *)
Definition join (sep : string) (xs : list string) : string :=
  String.concat sep xs.

(** A string given by its bytes. *)
Definition bytes (codes : list nat) : string :=
  string_of_list_ascii (map ascii_of_nat codes).

(** The code points [trim] removes (white space and line terminators), in
    UTF-8: TAB, LF, VT, FF, CR, SPACE, U+00A0, U+1680, U+2000 to U+200A,
    U+2028, U+2029, U+202F, U+205F, U+3000 and U+FEFF. *)
Definition white_space : list string :=
  [ bytes [9]; bytes [10]; bytes [11]; bytes [12]; bytes [13]; bytes [32];
    bytes [194; 160];
    bytes [225; 154; 128];
    bytes [226; 128; 128]; bytes [226; 128; 129]; bytes [226; 128; 130];
    bytes [226; 128; 131]; bytes [226; 128; 132]; bytes [226; 128; 133];
    bytes [226; 128; 134]; bytes [226; 128; 135]; bytes [226; 128; 136];
    bytes [226; 128; 137]; bytes [226; 128; 138];
    bytes [226; 128; 168]; bytes [226; 128; 169];
    bytes [226; 128; 175];
    bytes [226; 129; 159];
    bytes [227; 128; 128];
    bytes [239; 187; 191] ]%nat.

Definition reverse (s : string) : string :=
  string_of_list_ascii (rev (list_ascii_of_string s)).

(** [s] without its prefix [p], when it starts with it. *)
Fixpoint strip_prefix (p s : string) : option string :=
  match p with
  | EmptyString => Some s
  | String a p' =>
      match s with
      | String b s' => if Ascii.eqb a b then strip_prefix p' s' else None
      | EmptyString => None
      end
  end.

(** [s] without the first of [prefixes] it starts with. *)
Fixpoint strip_any (prefixes : list string) (s : string) : option string :=
  match prefixes with
  | [] => None
  | p :: others =>
      match strip_prefix p s with
      | Some rest => Some rest
      | None => strip_any others s
      end
  end.

(** Strips prefixes for as long as there is one; every strip shortens the
    string, so its length is fuel enough. *)
Fixpoint strip_all (fuel : nat) (prefixes : list string) (s : string)
  : string :=
  match fuel with
  | O => s
  | S fuel' =>
      match strip_any prefixes s with
      | Some rest => strip_all fuel' prefixes rest
      | None => s
      end
  end.

Definition trimStart (s : string) : string :=
  strip_all (String.length s) white_space s.

Definition trimEnd (s : string) : string :=
  reverse (strip_all (String.length s) (map reverse white_space) (reverse s)).

Definition trim (s : string) : string := trimEnd (trimStart s).

(** [xs[0]]: [undefined] on the empty array. *)
Definition first {A : Type} (xs : list A) : option A :=
  match xs with
  | [] => None
  | x :: _ => Some x
  end.

End Js.

(** ** The address input *)

Module Address.

(** *** Data *)

(** [{ lat: number, lng: number }] *)
Record LatLngLiteral : Type := mkLatLngLiteral {
  lat : float;
  lng : float
}.

(** The default written when no coordinate was resolved:
    [{ lat: 0, lng: 0 }]. *)
Definition sentinel : LatLngLiteral := {| lat := 0%float; lng := 0%float |}.

(** [google.maps.LatLng]: the methods [lat()], [lng()] and [toJSON()]. *)
Record LatLng : Type := mkLatLng {
  LatLng_lat : float;
  LatLng_lng : float
}.

Definition toJSON (l : LatLng) : LatLngLiteral :=
  {| lat := LatLng_lat l; lng := LatLng_lng l |}.

(** [google.maps.GeocoderGeometry]; [handleSelect] reads [location] through
    [?.], so it may be missing. *)
Record GeocoderGeometry : Type := mkGeometry {
  location : option LatLng
}.

(** [google.maps.GeocoderResult], with the fields the component reads.
    [geometry] is read through [?.] and [place_id] through [|| ""], so both
    may be missing. *)
Record GeocoderResult : Type := mkGeocoderResult {
  formatted_address : string;
  geometry : option GeocoderGeometry;
  place_id : option string
}.

(** The value bound to the form field. *)
Record AddressValue : Type := mkAddressValue {
  address : option string;      (* [undefined] is [None] *)
  position : LatLngLiteral
}.

Record PlaceOption : Type := mkPlaceOption {
  description : string;
  placeId : string
}.

(** [formattedSuggestion] is a plain string in the initial entry and a pair
    of texts in the entry built after geolocation. *)
Inductive FormattedSuggestion : Type :=
| PlainText (text : string)
| MainSecondary (mainText secondaryText : string).

(** [Suggestion] of the autocomplete library. *)
Record Suggestion : Type := mkSuggestion {
  sg_id : string;
  sg_active : bool;
  sg_index : Z;
  sg_formattedSuggestion : FormattedSuggestion;
  sg_description : string;
  sg_placeId : string;
  sg_matchedSubstrings : list (Z * Z);
  sg_terms : list (Z * string);
  sg_types : list string
}.

(** A suggestion passed where a [PlaceOption] is expected. *)
Definition asPlaceOption (s : Suggestion) : PlaceOption :=
  {| description := sg_description s; placeId := sg_placeId s |}.

Inductive LocationState : Type :=
| idle | requesting | detecting | geocoding | success | error | denied.

(** The third argument of [getCurrentPosition]; times in milliseconds. *)
Record PositionOptions : Type := mkPositionOptions {
  enableHighAccuracy : bool;
  timeout : Z;
  maximumAge : Z
}.

Record GeolocationCoordinates : Type := mkCoords {
  latitude : float;
  longitude : float
}.

Record GeolocationPosition : Type := mkGeoPosition {
  coords : GeolocationCoordinates
}.

(** [GeolocationPositionError.code] *)
Inductive PositionErrorCode : Type :=
| PERMISSION_DENIED | POSITION_UNAVAILABLE | TIMEOUT.

(** Values that can be thrown or used to reject a promise. *)
Inductive Exn : Type :=
| JsError (message : string)
| TypeError (message : string)
| PositionError (code : PositionErrorCode)
| GeocoderStatus (status : string).

(** *** The outside world *)

(** How [getCurrentPosition] answers: with a fix, with an error, or not at
    all (the permission prompt is never answered). *)
Inductive PositionReply : Type :=
| PositionFix (p : GeolocationPosition)
| PositionFailed (code : PositionErrorCode)
| PositionSilent.

(** How [Geocoder.geocode] calls back: [(results, status)], or never. *)
Inductive GeocoderReply : Type :=
| GeocoderCallback (results : option (list GeocoderResult)) (status : string)
| GeocoderSilent.

(** How the promise of [geocodeByPlaceId] settles. *)
Inductive PlaceIdReply : Type :=
| Resolved (response : option (list GeocoderResult))
| Rejected (reason : Exn)
| Unsettled.

Record World : Type := mkWorld {
  navigator_geolocation : bool;
  getCurrentPosition : PositionOptions -> PositionReply;
  geocoder_geocode : LatLngLiteral -> GeocoderReply;
  geocodeByPlaceId : string -> PlaceIdReply
}.

(** *** Effects *)

(** The calls a handler makes, in program order. *)
Inductive Event : Type :=
| SetLocationState (s : LocationState)
| SetHasRequestedLocation (b : bool)
| SetState (suggestions : list (option Suggestion))
| SetValue (v : string)
| SetAllowManualInput (b : bool)
| FieldOnChange (v : AddressValue)
| CallGetCurrentPosition (options : PositionOptions)
| CallGeocode (loc : LatLngLiteral)
| CallGeocodeByPlaceId (id : string)
| ClearSuggestions
| InputPropsOnChange (v : string)
| ConsoleWarn (message : string)
| ConsoleError (message : string)
| SetApiLoaded (b : bool)
| SetTimeout (ms : Z)
| ClearTimeout.

(** How a computation ends: it returns, throws, or stays suspended at an
    [await] whose promise never settles. *)
Inductive Outcome (A : Type) : Type :=
| Returned (a : A)
| Threw (e : Exn)
| Suspended.
Arguments Returned {A} a.
Arguments Threw {A} e.
Arguments Suspended {A}.

Definition Eff (A : Type) : Type := (list Event * Outcome A)%type.

Definition ret {A : Type} (a : A) : Eff A := ([], Returned a).

Definition bind {A B : Type} (m : Eff A) (k : A -> Eff B) : Eff B :=
  match m with
  | (t, Returned a) => let (t', o) := k a in (t ++ t', o)
  | (t, Threw e) => (t, Threw e)
  | (t, Suspended) => (t, Suspended)
  end.

Definition emit (e : Event) : Eff unit := ([e], Returned tt).

Definition throw {A : Type} (e : Exn) : Eff A := ([], Threw e).

Definition suspend {A : Type} : Eff A := ([], Suspended).

(** [try { m } catch (e) { h e }] *)
Definition tryCatch {A : Type} (m : Eff A) (h : Exn -> Eff A) : Eff A :=
  match m with
  | (t, Threw e) => let (t', o) := h e in (t ++ t', o)
  | _ => m
  end.

Definition trace {A : Type} (m : Eff A) : list Event := fst m.
Definition outcome {A : Type} (m : Eff A) : Outcome A := snd m.

Declare Scope eff_scope.
Delimit Scope eff_scope with eff.
Notation "x <- m ;; k" := (bind m (fun x => k))
  (at level 61, m at next level, right associativity) : eff_scope.
Notation "m ;; k" := (bind m (fun _ => k))
  (at level 61, right associativity) : eff_scope.
Open Scope eff_scope.

(** *** Selection *)

(** [await geocodeByPlaceId(id)] *)
Definition awaitGeocodeByPlaceId (w : World) (id : string)
  : Eff (option (list GeocoderResult)) :=
  emit (CallGeocodeByPlaceId id) ;;
  match geocodeByPlaceId w id with
  | Resolved response => ret response
  | Rejected reason => throw reason
  | Unsettled => suspend
  end.

(** [result.geometry?.location] *)
Definition geometry_location (r : GeocoderResult) : option LatLng :=
  match geometry r with
  | Some g => location g
  | None => None
  end.

(** [result.geometry?.location?.toJSON() || { lat: 0, lng: 0 }]; the object
    [toJSON] returns is always truthy. *)
Definition position_or_sentinel (r : GeocoderResult) : LatLngLiteral :=
  match geometry_location r with
  | Some l => toJSON l
  | None => sentinel
  end.

Definition handleSelect (w : World) (option_ : option PlaceOption)
    (onChange : AddressValue -> Eff unit) : Eff unit :=
  match option_ with
  | Some o =>
      if negb (Js.truthy (placeId o)) then
        (* option.placeId === "" : empty selection, clear the field *)
        onChange {| address := Some ""; position := sentinel |}
      else
        tryCatch
          (response <- awaitGeocodeByPlaceId w (placeId o) ;;
           match response with
           | Some (r0 :: _) =>
               onChange {| address := Some (formatted_address r0);
                           position := position_or_sentinel r0 |}
           | Some [] | None =>
               (* Fallback: use the description from the option *)
               onChange {| address := Some (description o);
                           position := sentinel |}
           end)
          (fun _ =>
             emit (ConsoleWarn "Geocoding error:") ;;
             onChange {| address := Some (description o);
                         position := sentinel |})
  | None =>
      (* No valid option selected *)
      onChange {| address := None; position := sentinel |}
  end.

(** [handleFieldChange]: a stable wrapper of [field.onChange]. *)
Definition handleFieldChange (newValue : AddressValue) : Eff unit :=
  emit (FieldOnChange newValue).

(** The effect that runs whenever the suggestion state changes. *)
Definition selectionEffect (w : World) (state : list (option Suggestion))
  : Eff unit :=
  match state with
  | [] => handleFieldChange {| address := None; position := sentinel |}
  | s0 :: _ =>
      handleSelect w (option_map asPlaceOption s0) handleFieldChange
  end.

(** *** Geolocation *)

(** The promise around [navigator.geolocation.getCurrentPosition]. *)
Definition awaitPosition (w : World) : Eff GeolocationPosition :=
  if negb (navigator_geolocation w) then
    throw (JsError "Geolocation is not supported by this browser.")
  else
    emit (SetLocationState detecting) ;;
    let options := {| enableHighAccuracy := true;
                      timeout := 10000;
                      maximumAge := 300000 (* 5 minutes *) |} in
    emit (CallGetCurrentPosition options) ;;
    match getCurrentPosition w options with
    | PositionFix p => ret p
    | PositionFailed code => throw (PositionError code)
    | PositionSilent => suspend
    end.

(** The promise around [geocoder.geocode({ location })]: resolved when
    [status === "OK" && results && results.length > 0]. *)
Definition awaitReverseGeocode (w : World) (loc : LatLngLiteral)
  : Eff (list GeocoderResult) :=
  emit (CallGeocode loc) ;;
  match geocoder_geocode w loc with
  | GeocoderCallback results status =>
      match results with
      | Some rs =>
          if (status =? "OK") && (0 <? List.length rs)%nat then ret rs
          else throw (JsError "Failed to get address from coordinates")
      | None => throw (JsError "Failed to get address from coordinates")
      end
  | GeocoderSilent => suspend
  end.

(** [address.split(",")[0] || address] *)
Definition mainTextOf (address : string) : string :=
  Js.opt_or_else (Js.first (Js.split "," address)) address.

(** [address.split(",").slice(1).join(",").trim() || ""] *)
Definition secondaryTextOf (address : string) : string :=
  Js.or_else (Js.trim (Js.join "," (Js.slice1 (Js.split "," address)))) "".

(** The single entry shown after a successful detection. *)
Definition detectedSuggestion (r0 : GeocoderResult) : Suggestion :=
  let address := formatted_address r0 in
  {| sg_id := "detected-location";
     sg_active := false;
     sg_index := 0;
     sg_formattedSuggestion :=
       MainSecondary (mainTextOf address) (secondaryTextOf address);
     sg_description := address;
     sg_placeId := Js.opt_or_else (place_id r0) "";
     sg_matchedSubstrings := [];
     sg_terms := [];
     sg_types := [] |}.

Definition handleAutoLocation (autoDetectLocation apiLoaded : bool)
    (w : World) : Eff unit :=
  if negb autoDetectLocation then
    emit (ConsoleWarn
            "Auto geolocation detection is disabled for this input field.")
  else if negb apiLoaded then
    emit (ConsoleError "Maps API not loaded yet. Cannot detect location.")
  else
    emit (SetLocationState requesting) ;;
    emit (SetHasRequestedLocation true) ;;
    tryCatch
      (position <- awaitPosition w ;;
       emit (SetLocationState geocoding) ;;
       results <- awaitReverseGeocode w
                    {| lat := latitude (coords position);
                       lng := longitude (coords position) |} ;;
       match results with
       | r0 :: _ =>
           match geometry r0 with
           | Some g =>
               match location g with
               | Some loc =>
                   emit (FieldOnChange
                           {| address := Some (formatted_address r0);
                              position := {| lat := LatLng_lat loc;
                                             lng := LatLng_lng loc |} |}) ;;
                   emit (SetState [Some (detectedSuggestion r0)]) ;;
                   emit (SetLocationState success)
               | None =>
                   (* location.lat() on undefined *)
                   throw (TypeError "location is undefined")
               end
           | None =>
               (* results[0].geometry.location on undefined *)
               throw (TypeError "geometry is undefined")
           end
       | [] => throw (TypeError "results[0] is undefined")
       end)
      (fun _ =>
         (* Silent failure *)
         emit (SetLocationState idle)).

(** *** Component state *)

Record Component : Type := mkComponent {
  apiLoaded : bool;
  locationState : LocationState;
  hasRequestedLocation : bool;
  state : list (option Suggestion);
  value : string;
  allowManualInput : bool;
  fieldValue : option AddressValue    (* [field.value] *)
}.

(** [field?.value?.address] as a condition. *)
Definition hasAddress (fv : option AddressValue) : bool :=
  match fv with
  | Some v => match address v with
              | Some a => Js.truthy a
              | None => false
              end
  | None => false
  end.

(** The initial suggestion state: one element, which is falsy (here [None])
    when the field holds no address. *)
Definition initialState (fv : option AddressValue)
  : list (option Suggestion) :=
  [ match fv with
    | Some v =>
        match address v with
        | Some a =>
            if Js.truthy a then
              Some {| sg_id := "initial-id";
                      sg_active := false;
                      sg_index := 0;
                      sg_formattedSuggestion := PlainText a;
                      sg_description := a;
                      sg_placeId := "";
                      sg_matchedSubstrings := [];
                      sg_terms := [];
                      sg_types := [] |}
            else None
        | None => None
        end
    | None => None
    end ].

Definition mount (fv : option AddressValue) : Component :=
  {| apiLoaded := false;
     locationState := idle;
     hasRequestedLocation := false;
     state := initialState fv;
     value := "";
     allowManualInput := false;
     fieldValue := fv |}.

(** What a call does to the component and to the bound field. *)
Definition apply_event (c : Component) (e : Event) : Component :=
  match e with
  | SetLocationState s =>
      mkComponent (apiLoaded c) s (hasRequestedLocation c) (state c)
                  (value c) (allowManualInput c) (fieldValue c)
  | SetHasRequestedLocation b =>
      mkComponent (apiLoaded c) (locationState c) b (state c)
                  (value c) (allowManualInput c) (fieldValue c)
  | SetState s =>
      mkComponent (apiLoaded c) (locationState c) (hasRequestedLocation c) s
                  (value c) (allowManualInput c) (fieldValue c)
  | SetValue v =>
      mkComponent (apiLoaded c) (locationState c) (hasRequestedLocation c)
                  (state c) v (allowManualInput c) (fieldValue c)
  | SetAllowManualInput b =>
      mkComponent (apiLoaded c) (locationState c) (hasRequestedLocation c)
                  (state c) (value c) b (fieldValue c)
  | FieldOnChange v =>
      mkComponent (apiLoaded c) (locationState c) (hasRequestedLocation c)
                  (state c) (value c) (allowManualInput c) (Some v)
  | SetApiLoaded b =>
      mkComponent b (locationState c) (hasRequestedLocation c)
                  (state c) (value c) (allowManualInput c) (fieldValue c)
  | CallGetCurrentPosition _ | CallGeocode _ | CallGeocodeByPlaceId _
  | ClearSuggestions | InputPropsOnChange _
  | ConsoleWarn _ | ConsoleError _ | SetTimeout _ | ClearTimeout => c
  end.

Definition replay (c : Component) (t : list Event) : Component :=
  fold_left apply_event t c.

(** *** Callbacks of the rendered inputs *)

(** [PlacesAutocomplete onError] *)
Definition onError (status : string) : Eff unit :=
  (* Clear suggestions on error to prevent hanging state *)
  emit ClearSuggestions ;;
  (* Enable manual input as fallback *)
  emit (SetAllowManualInput true).

(** [PlacesAutocomplete onChange] *)
Definition placesOnChange (v : string) : Eff unit := emit (SetValue v).

(** [InputActionMeta.action] of the select library. *)
Inductive InputAction : Type :=
| set_value | input_change | input_blur | menu_close.

Definition is_input_change (actionMeta : option InputAction) : bool :=
  match actionMeta with
  | Some input_change => true
  | _ => false
  end.

(** [Select onInputChange] *)
Definition onInputChange (allowManual : bool) (inputValue : string)
    (actionMeta : option InputAction) : Eff unit :=
  (* Handle manual input when API fails *)
  (if allowManual && is_input_change actionMeta then
     handleFieldChange {| address := Some inputValue; position := sentinel |}
   else ret tt) ;;
  (* Call the original onInputChange *)
  emit (InputPropsOnChange inputValue).

(** [Select onChange]; [selected] says whether the action is
    ["select-option"], which schedules the refocus. *)
Definition selectOnChange (v : option Suggestion) (selected : bool)
  : Eff unit :=
  match v with
  | Some s => emit (SetState [Some s])
  | None => emit (SetState [])
  end ;;
  if selected then emit (SetTimeout 0) else ret tt.

(** The condition under which the mount effect schedules detection. *)
Definition autoDetectCondition (autoDetectLocation : bool) (c : Component)
  : bool :=
  autoDetectLocation && apiLoaded c && negb (hasAddress (fieldValue c))
  && negb (hasRequestedLocation c)
  && match locationState c with idle => true | _ => false end.



(** *** The component as a transition system *)

Inductive Action : Type :=
| MapsApiLoaded
| AutoDetectTimerFired
| ProviderError (status : string)
| PlacesChange (v : string)
| InputChange (inputValue : string) (actionMeta : option InputAction)
| SelectChange (v : option Suggestion) (selected : bool)
| SelectionEffect.

(** The timer only survives while the effect's dependencies are unchanged,
    so when it fires the condition that armed it still holds. *)
Definition handle (autoDetectLocation : bool) (w : World) (c : Component)
    (a : Action) : Eff unit :=
  match a with
  | MapsApiLoaded => emit (SetApiLoaded true)
  | AutoDetectTimerFired =>
      if autoDetectCondition autoDetectLocation c
      then handleAutoLocation autoDetectLocation (apiLoaded c) w
      else ret tt
  | ProviderError status => onError status
  | PlacesChange v => placesOnChange v
  | InputChange inputValue actionMeta =>
      onInputChange (allowManualInput c) inputValue actionMeta
  | SelectChange v selected => selectOnChange v selected
  | SelectionEffect => selectionEffect w (state c)
  end.

Definition step (autoDetectLocation : bool) (w : World) (c : Component)
    (a : Action) : Component :=
  replay c (trace (handle autoDetectLocation w c a)).

Definition run (autoDetectLocation : bool) (w : World) (c : Component)
    (actions : list Action) : Component :=
  fold_left (step autoDetectLocation w) actions c.

(** The calls made along a run, in order. *)
Fixpoint history (autoDetectLocation : bool) (w : World) (c : Component)
    (actions : list Action) : list Event :=
  match actions with
  | [] => []
  | a :: rest =>
      trace (handle autoDetectLocation w c a)
      ++ history autoDetectLocation w (step autoDetectLocation w c a) rest
  end.

(** *** Vocabulary of the properties *)

(** The values handed to [field.onChange] along a trace, in order. *)
Fixpoint writes (t : list Event) : list AddressValue :=
  match t with
  | [] => []
  | FieldOnChange v :: rest => v :: writes rest
  | _ :: rest => writes rest
  end.

(** The location states set along a trace, in order. *)
Fixpoint locationStates (t : list Event) : list LocationState :=
  match t with
  | [] => []
  | SetLocationState s :: rest => s :: locationStates rest
  | _ :: rest => locationStates rest
  end.

(** The options of the position requests made along a trace. *)
Fixpoint positionRequests (t : list Event) : list PositionOptions :=
  match t with
  | [] => []
  | CallGetCurrentPosition o :: rest => o :: positionRequests rest
  | _ :: rest => positionRequests rest
  end.

(** [follows R s l]: starting in [s], each state of [l] is entered from the
    one before it by a transition of [R]. *)
Fixpoint follows (R : LocationState -> LocationState -> bool)
    (s : LocationState) (l : list LocationState) : bool :=
  match l with
  | [] => true
  | s' :: rest => R s s' && follows R s' rest
  end.

(** The chain [idle -> requesting -> detecting -> geocoding ->
    success | error]. *)
Definition chain_transition (s s' : LocationState) : bool :=
  match s, s' with
  | idle, requesting
  | requesting, detecting
  | detecting, geocoding
  | geocoding, success
  | geocoding, error => true
  | _, _ => false
  end.

(** The chain up to [success], and the way back to [idle] from each stage
    in progress. *)
Definition silent_transition (s s' : LocationState) : bool :=
  match s, s' with
  | idle, requesting
  | requesting, detecting
  | detecting, geocoding
  | geocoding, success
  | requesting, idle
  | detecting, idle
  | geocoding, idle => true
  | _, _ => false
  end.

(** The states the component ever sets. *)
Definition in_use (s : LocationState) : bool :=
  match s with
  | idle | requesting | detecting | geocoding | success => true
  | error | denied => false
  end.

(** High accuracy, 10 seconds, 5 minutes. *)
Definition statedOptions : PositionOptions :=
  {| enableHighAccuracy := true;
     timeout := 10 * 1000;
     maximumAge := 5 * 60 * 1000 |}.

(** The coordinate handed to the reverse geocoder for a fix. *)
Definition fixLocation (p : GeolocationPosition) : LatLngLiteral :=
  {| lat := latitude (coords p); lng := longitude (coords p) |}.

(** Reverse geocoding succeeded: status OK and at least one result. *)
Definition usable (results : option (list GeocoderResult))
    (status : string) : bool :=
  match results with
  | Some (_ :: _) => status =? "OK"
  | _ => false
  end.

(** The ways the outside world makes a detection fail, stage by stage. *)
Inductive Failure (w : World) : Prop :=
| geolocation_unsupported :
    navigator_geolocation w = false -> Failure w
| position_failed (code : PositionErrorCode) :
    (* permission denied, position unavailable, timeout *)
    navigator_geolocation w = true ->
    getCurrentPosition w statedOptions = PositionFailed code ->
    Failure w
| reverse_geocode_failed (p : GeolocationPosition)
    (results : option (list GeocoderResult)) (status : string) :
    navigator_geolocation w = true ->
    getCurrentPosition w statedOptions = PositionFix p ->
    geocoder_geocode w (fixLocation p) = GeocoderCallback results status ->
    usable results status = false ->
    Failure w
| result_without_location (p : GeolocationPosition)
    (r0 : GeocoderResult) (rs : list GeocoderResult) :
    navigator_geolocation w = true ->
    getCurrentPosition w statedOptions = PositionFix p ->
    geocoder_geocode w (fixLocation p)
      = GeocoderCallback (Some (r0 :: rs)) "OK" ->
    geometry_location r0 = None ->
    Failure w.

(** The provider failed to resolve a place id: the promise was rejected,
    or resolved without a result. *)
Definition provider_fails (reply : PlaceIdReply) : bool :=
  match reply with
  | Rejected _ => true
  | Resolved None => true
  | Resolved (Some []) => true
  | Resolved (Some (_ :: _)) => false
  | Unsettled => false
  end.

(** Calls nobody but the component itself can observe: its location
    state, the request flag and the requests to the device and the
    geocoder.  Everything else reaches the bound field, the suggestion
    list, the manual-entry notice or the console. *)
Definition quiet (e : Event) : bool :=
  match e with
  | SetLocationState _ | SetHasRequestedLocation _
  | CallGetCurrentPosition _ | CallGeocode _ => true
  | _ => false
  end.

(** Calls that reach the suggestion or geocoding provider.  The input
    handler obtained from [getInputProps()] belongs to the autocomplete
    component, which requests predictions for the text it is given. *)
Definition reaches_provider (e : Event) : bool :=
  match e with
  | InputPropsOnChange _ | CallGeocodeByPlaceId _ | CallGeocode _ => true
  | _ => false
  end.

(** Calls to the geocoder. *)
Definition is_geocode_call (e : Event) : bool :=
  match e with
  | CallGeocodeByPlaceId _ | CallGeocode _ => true
  | _ => false
  end.


(** The locations carried by a list of results. *)
Definition locations_of (rs : list GeocoderResult) : list LatLng :=
  flat_map (fun r => match geometry_location r with
                     | Some l => [l]
                     | None => []
                     end) rs.

(** The locations the provider handed back to the calls of a trace. *)
Fixpoint provider_locations (w : World) (t : list Event) : list LatLng :=
  match t with
  | [] => []
  | CallGeocodeByPlaceId id :: rest =>
      match geocodeByPlaceId w id with
      | Resolved (Some rs) => locations_of rs
      | _ => []
      end ++ provider_locations w rest
  | CallGeocode loc :: rest =>
      match geocoder_geocode w loc with
      | GeocoderCallback (Some rs) _ => locations_of rs
      | _ => []
      end ++ provider_locations w rest
  | _ :: rest => provider_locations w rest
  end.

(** *** Sample inputs *)

Definition pune_center : LatLng :=
  {| LatLng_lat := 18.5%float; LatLng_lng := 73.875%float |}.

Definition pune : GeocoderResult :=
  {| formatted_address := "Pune, Maharashtra, India";
     geometry := Some {| location := Some pune_center |};
     place_id := Some "ChIJARFGZy6_wjsRQ-Oenb9DjYI" |}.

(** The same result without its geometry. *)
Definition pune_bare : GeocoderResult :=
  {| formatted_address := "Pune, Maharashtra, India";
     geometry := None;
     place_id := Some "ChIJARFGZy6_wjsRQ-Oenb9DjYI" |}.

(** A result located at latitude 0, longitude 0. *)
Definition gulf_of_guinea : GeocoderResult :=
  {| formatted_address := "Gulf of Guinea";
     geometry := Some {| location := Some (mkLatLng 0 0) |};
     place_id := Some "ChIJ0000" |}.

Definition pune_option : PlaceOption :=
  {| description := "Pune, Maharashtra";
     placeId := "ChIJARFGZy6_wjsRQ-Oenb9DjYI" |}.

Definition a_fix : GeolocationPosition :=
  {| coords := {| latitude := 18.5%float; longitude := 73.875%float |} |}.

Definition world_answering (first : GeocoderResult) : World :=
  {| navigator_geolocation := true;
     getCurrentPosition := fun _ => PositionFix a_fix;
     geocoder_geocode := fun _ => GeocoderCallback (Some [first]) "OK";
     geocodeByPlaceId := fun _ => Resolved (Some [first]) |}.

(** The user refuses the permission prompt and the provider is down. *)
Definition world_denied : World :=
  {| navigator_geolocation := true;
     getCurrentPosition := fun _ => PositionFailed PERMISSION_DENIED;
     geocoder_geocode := fun _ => GeocoderCallback None "ERROR";
     geocodeByPlaceId := fun _ => Rejected (GeocoderStatus "ERROR") |}.

(** The component after the maps API loaded and the provider reported an
    autocomplete error. *)
Definition after_provider_error : Component :=
  run false world_denied (mount None)
      [MapsApiLoaded; ProviderError "REQUEST_DENIED"].

(** *** Form errors by field path *)

(** Strings, numbers and booleans. *)
Inductive Primitive : Type :=
| PString (s : string)
| PNumber (x : float)
| PBoolean (b : bool).

(** The values found in the form's error object: nested objects (arrays
    and functions included, as what can be read from them) down to
    primitives. *)
#[warnings="-register-all"]
Inductive JsValue : Type :=
| VUndefined
| VNull
| VPrimitive (p : Primitive)
| VObject (props : list (string * JsValue)).

Definition VString (s : string) : JsValue := VPrimitive (PString s).

Section NestedErrors.

(** What reading a property of a primitive gives (the [length] of a
    string, a method of its prototype): left to the environment. *)
Variable primitive_read : Primitive -> string -> JsValue.

(** [current?.[key]] *)
Definition read (current : JsValue) (key : string) : JsValue :=
  match current with
  | VUndefined | VNull => VUndefined
  | VPrimitive p => primitive_read p key
  | VObject props =>
      match find (fun kv => fst kv =? key) props with
      | Some kv => snd kv
      | None => VUndefined
      end
  end.

(** The loop of [getNestedError]; [None] is its early
    [return undefined]. *)
Fixpoint walk (current : JsValue) (keys : list string) : option JsValue :=
  match keys with
  | [] => Some current
  | key :: rest =>
      match read current key with
      | VUndefined => None
      | next => walk next rest
      end
  end.

Definition getNestedError (obj : JsValue) (path : string) : JsValue :=
  match walk obj (Js.split "." path) with
  | Some current => read current "message"
  | None => VUndefined
  end.

(** [formError] and [addressError] of a field. *)
Definition formErrorOf (errors : JsValue) (name : string) : JsValue :=
  getNestedError errors name.

Definition addressErrorOf (errors : JsValue) (name : string) : JsValue :=
  getNestedError errors (name ++ ".address").

End NestedErrors.

(** Primitives whose property reads all give [undefined]. *)
Definition bare_primitives (p : Primitive) (key : string) : JsValue :=
  VUndefined.

(** The errors of a form whose [location.address] is required. *)
Definition sample_errors : JsValue :=
  VObject
    [ ("location",
       VObject
         [ ("address",
            VObject [ ("type", VString "required");
                      ("message", VString "Address is required") ]) ]) ].

(** *** More vocabulary *)

(** The lookup of a selection never settles. *)
Definition lookup_unsettled (w : World) (o : option PlaceOption) : bool :=
  match o with
  | Some p =>
      Js.truthy (placeId p)
      && match geocodeByPlaceId w (placeId p) with
         | Unsettled => true
         | _ => false
         end
  | None => false
  end.

(** The place ids looked up along a trace. *)
Fixpoint placeLookups (t : list Event) : list string :=
  match t with
  | [] => []
  | CallGeocodeByPlaceId id :: rest => id :: placeLookups rest
  | _ :: rest => placeLookups rest
  end.

Definition is_provider_error (a : Action) : bool :=
  match a with
  | ProviderError _ => true
  | _ => false
  end.

(** No comma in a string. *)
Fixpoint comma_free (s : string) : bool :=
  match s with
  | EmptyString => true
  | String c rest => negb (Ascii.eqb c ",") && comma_free rest
  end.

End Address.


(** ** The multi-image input *)

Module MultiImage.

Open Scope Z_scope.

(** A [File]: the fields the component reads; [file_size] in bytes. *)
Record File : Type := mkFile {
  file_name : string;
  file_type : string;
  file_size : Z
}.

(** The props that drive validation, with their defaults. *)
Record Props : Type := mkProps {
  maxFiles : Z;
  maxFileSize : Z;              (* in MB *)
  acceptedTypes : list string
}.

Definition defaultProps : Props :=
  {| maxFiles := 10;
     maxFileSize := 20;
     acceptedTypes := ["image/jpeg"; "image/jpg"; "image/png"; "image/webp"] |}.

(** A whole number inside a template literal. *)
Definition show (n : Z) : string :=
  DecimalString.NilZero.string_of_int (Z.to_int n).

(** [xs.includes(x)] on strings. *)
Definition includes (xs : list string) (x : string) : bool :=
  existsb (String.eqb x) xs.

Definition invalidTypeMessage (p : Props) (f : File) : string :=
  (file_name f ++ ": Invalid file type. Accepted: "
     ++ String.concat ", " (acceptedTypes p))%string.

Definition tooLargeMessage (p : Props) (f : File) : string :=
  (file_name f ++ ": File too large. Max: " ++ show (maxFileSize p)
     ++ "MB")%string.

Definition maxFilesMessage (p : Props) : string :=
  ("Maximum " ++ show (maxFiles p) ++ " files allowed")%string.

(** One turn of the [forEach] in [validateFiles]: the two arrays are
    extended by [push]. *)
Definition validateOne (p : Props) (acc : list File * list string)
    (file : File) : list File * list string :=
  let (validFiles, newErrors) := acc in
  if negb (includes (acceptedTypes p) (file_type file)) then
    (validFiles, newErrors ++ [invalidTypeMessage p file])
  else if file_size file >? maxFileSize p * 1024 * 1024 then
    (validFiles, newErrors ++ [tooLargeMessage p file])
  else
    (validFiles ++ [file], newErrors).

Definition validateFiles (p : Props) (files : list File)
  : list File * list string :=
  fold_left (validateOne p) files ([], []).

(** The component's local state, the bound field and the file input. *)
Record State : Type := mkState {
  isDragOver : bool;
  errors : list string;
  fieldValue : option (list File);   (* [None]: not an array *)
  inputValue : string                (* [e.target.value] of the file input *)
}.

(** [Array.isArray(field.value) ? field.value : []] *)
Definition currentFilesOf (st : State) : list File :=
  match fieldValue st with
  | Some files => files
  | None => []
  end.

(** The part shared by both handlers, from [validateFiles] on. *)
Definition acceptFiles (p : Props) (files : list File) (st : State)
  : State * bool :=
  let (validFiles, validationErrors) := validateFiles p files in
  let st1 := mkState (isDragOver st) validationErrors (fieldValue st)
                     (inputValue st) in
  let currentFiles := currentFilesOf st1 in
  let totalFiles := Z.of_nat (List.length currentFiles)
                    + Z.of_nat (List.length validFiles) in
  if totalFiles >? maxFiles p then
    (mkState (isDragOver st1) (errors st1 ++ [maxFilesMessage p])
             (fieldValue st1) (inputValue st1), false)
  else
    (mkState (isDragOver st1) (errors st1)
             (Some (currentFiles ++ validFiles)) (inputValue st1), true).

(** [handleDrop]; [droppedFiles] is [e.dataTransfer.files]. *)
Definition handleDrop (p : Props) (droppedFiles : option (list File))
    (st : State) : State :=
  let st0 := mkState false (errors st) (fieldValue st) (inputValue st) in
  match droppedFiles with
  | None | Some [] => st0
  | Some files => fst (acceptFiles p files st0)
  end.

(** [handleFileSelect]; [selectedFiles] is [e.target.files].  The input is
    reset unless the handler returned early. *)
Definition handleFileSelect (p : Props) (selectedFiles : option (list File))
    (st : State) : State :=
  match selectedFiles with
  | Some files =>
      let (st1, continued) := acceptFiles p files st in
      if continued then
        mkState (isDragOver st1) (errors st1) (fieldValue st1) ""
      else st1
  | None => mkState (isDragOver st) (errors st) (fieldValue st) ""
  end.

(** A file-drop or a file-select event. *)
Inductive FileEvent : Type :=
| Dropped (files : option (list File))
| Selected (files : option (list File)).

Definition incoming (ev : FileEvent) : list File :=
  match ev with
  | Dropped (Some files) | Selected (Some files) => files
  | Dropped None | Selected None => []
  end.

Definition onFileEvent (p : Props) (ev : FileEvent) (st : State) : State :=
  match ev with
  | Dropped files => handleDrop p files st
  | Selected files => handleFileSelect p files st
  end.

(** A file passes when its MIME type is accepted and its size is at most
    [maxFileSize] megabytes. *)
Definition acceptable (p : Props) (f : File) : bool :=
  includes (acceptedTypes p) (file_type f)
  && (file_size f <=? maxFileSize p * (1024 * 1024)).

(** The errors [validateFiles] reports for a list of files. *)
Definition validationErrors (p : Props) (files : list File) : list string :=
  snd (validateFiles p files).

(** *** Sample inputs *)

Definition photo : File :=
  {| file_name := "photo.png"; file_type := "image/png";
     file_size := 2 * 1024 * 1024 |}.

Definition notes : File :=
  {| file_name := "notes.pdf"; file_type := "application/pdf";
     file_size := 1024 |}.

Definition scan : File :=
  {| file_name := "scan.webp"; file_type := "image/webp";
     file_size := 20 * 1024 * 1024 + 1 |}.

Definition empty_form : State :=
  {| isDragOver := true; errors := []; fieldValue := None;
     inputValue := "C:/fakepath/photo.png" |}.

(** *** Removing and clearing *)

(** [files.filter((_, i) => i !== index)], counting from [i]. *)
Fixpoint dropIndex (index i : Z) (files : list File) : list File :=
  match files with
  | [] => []
  | f :: rest =>
      if i =? index then dropIndex index (i + 1) rest
      else f :: dropIndex index (i + 1) rest
  end.

(** [removeFile] *)
Definition removeFile (index : Z) (st : State) : State :=
  let currentFiles := currentFilesOf st in
  let updatedFiles := dropIndex index 0 currentFiles in
  mkState (isDragOver st) [] (Some updatedFiles) (inputValue st).

(** The [Clear All] button: [field.onChange([])]. *)
Definition clearAll (st : State) : State :=
  mkState (isDragOver st) (errors st) (Some []) (inputValue st).

(** [handleDragOver] and [handleDragLeave] *)
Definition handleDragOver (st : State) : State :=
  mkState true (errors st) (fieldValue st) (inputValue st).

Definition handleDragLeave (st : State) : State :=
  mkState false (errors st) (fieldValue st) (inputValue st).

(** What the user can do to the input. *)
Inductive UserAction : Type :=
| Files (ev : FileEvent)
| Remove (index : Z)
| ClearAll
| DragOver
| DragLeave.

Definition act (p : Props) (st : State) (a : UserAction) : State :=
  match a with
  | Files ev => onFileEvent p ev st
  | Remove index => removeFile index st
  | ClearAll => clearAll st
  | DragOver => handleDragOver st
  | DragLeave => handleDragLeave st
  end.

(** [fileCount] *)
Definition fileCount (st : State) : Z :=
  Z.of_nat (List.length (currentFilesOf st)).

(** Whether the incoming files would take the list over [maxFiles]. *)
Definition over_limit (p : Props) (files : list File) (st : State) : bool :=
  Z.of_nat (List.length (currentFilesOf st))
  + Z.of_nat (List.length (filter (acceptable p) files))
  >? maxFiles p.

End MultiImage.

(** ** The badge input *)

Module Badges.

(** [Array.isArray(field.value) ? field.value : []]; [None] is a value
    that is not an array. *)
Definition currentValuesOf (fieldValue : option (list string))
  : list string :=
  match fieldValue with
  | Some vs => vs
  | None => []
  end.

(** [isSelected] of an option, as computed when its badge is rendered. *)
Definition isSelected (fieldValue : option (list string)) (v : string)
  : bool :=
  match fieldValue with
  | Some vs => existsb (String.eqb v) vs
  | None => false
  end.

(** [onClick] of a badge: the new [field.value]. *)
Definition onClick (disabled : bool) (fieldValue : option (list string))
    (v : string) : option (list string) :=
  if disabled then fieldValue
  else
    let currentValues := currentValuesOf fieldValue in
    let newValues :=
      if isSelected fieldValue v
      then filter (fun val => negb (String.eqb val v)) currentValues
      else currentValues ++ [v] in
    Some newValues.

(** [onKeyDown] of a badge: Enter and the space bar toggle. *)
Definition onKeyDown (disabled : bool) (fieldValue : option (list string))
    (v key : string) : option (list string) :=
  if (key =? "Enter") || (key =? " ") then
    if negb disabled then
      let currentValues := currentValuesOf fieldValue in
      let newValues :=
        if isSelected fieldValue v
        then filter (fun val => negb (String.eqb val v)) currentValues
        else currentValues ++ [v] in
      Some newValues
    else fieldValue
  else fieldValue.

(** The [Clear all] button. *)
Definition clearAll (fieldValue : option (list string))
  : option (list string) := Some [].

End Badges.


(** ** Properties of the address input *)

Module AddressFacts.

Import Address.

(** *** Traces *)

Lemma writes_app (t1 t2 : list Event) :
  writes (t1 ++ t2) = writes t1 ++ writes t2.
Proof.
  induction t1 as [|e t1 IH]; [reflexivity|].
  destruct e; simpl; rewrite IH; reflexivity.
Qed.

Lemma locationStates_app (t1 t2 : list Event) :
  locationStates (t1 ++ t2) = locationStates t1 ++ locationStates t2.
Proof.
  induction t1 as [|e t1 IH]; [reflexivity|].
  destruct e; simpl; rewrite IH; reflexivity.
Qed.

Lemma last_cons {A : Type} (x d : A) (l : list A) :
  last (x :: l) d = last l x.
Proof.
  revert x d; induction l as [|y l IH]; intros x d; [reflexivity|].
  change (last (x :: y :: l) d) with (last (y :: l) d).
  rewrite (IH y d), (IH y x). reflexivity.
Qed.

Lemma last_app_from {A : Type} (l1 l2 : list A) (d : A) :
  last (l1 ++ l2) d = last l2 (last l1 d).
Proof.
  revert d; induction l1 as [|x l1 IH]; intros d; [reflexivity|].
  rewrite <- app_comm_cons, !last_cons. apply IH.
Qed.

Lemma follows_app R s l1 l2 :
  follows R s (l1 ++ l2) = follows R s l1 && follows R (last l1 s) l2.
Proof.
  revert s; induction l1 as [|x l1 IH]; intros s.
  - reflexivity.
  - rewrite last_cons. cbn [app follows].
    rewrite IH, <- andb_assoc. reflexivity.
Qed.

(** The location state after a trace is the last one it set. *)
Lemma locationState_replay (t : list Event) (c : Component) :
  locationState (replay c t) = last (locationStates t) (locationState c).
Proof.
  unfold replay. revert c.
  induction t as [|e t IH]; intros c; [reflexivity|].
  cbn [fold_left]. rewrite IH.
  destruct e; cbn [locationStates apply_event locationState]; try reflexivity.
  symmetry. apply last_cons.
Qed.

(** The bound value after a trace is the last one written, if any. *)
Lemma fieldValue_replay (t : list Event) (c : Component) :
  fieldValue (replay c t)
  = last (map Some (writes t)) (fieldValue c).
Proof.
  unfold replay. revert c.
  induction t as [|e t IH]; intros c; [reflexivity|].
  cbn [fold_left]. rewrite IH.
  destruct e; cbn [writes apply_event fieldValue map]; try reflexivity.
  symmetry. apply last_cons.
Qed.

(** *** Selection *)

(** C1, as the code has it: for a suggestion with a non-empty place id
    whose lookup resolves with at least one result, [handleSelect] hands
    exactly one value to [onChange]; its address is the first result's
    formatted address, and its position is that result's location when the
    result carries one and the sentinel [{0,0}] when it does not. *)
Theorem handleSelect_provider_success
    (w : World) (o : PlaceOption) (r0 : GeocoderResult)
    (rs : list GeocoderResult) :
  Js.truthy (placeId o) = true ->
  geocodeByPlaceId w (placeId o) = Resolved (Some (r0 :: rs)) ->
  exists v : AddressValue,
    handleSelect w (Some o) handleFieldChange
    = ([CallGeocodeByPlaceId (placeId o); FieldOnChange v], Returned tt)
    /\ address v = Some (formatted_address r0)
    /\ (forall loc, geometry_location r0 = Some loc ->
                    position v = toJSON loc)
    /\ (geometry_location r0 = None -> position v = sentinel).
Proof.
  intros Hid Hreply.
  exists {| address := Some (formatted_address r0);
            position := position_or_sentinel r0 |}.
  split.
  - unfold handleSelect, awaitGeocodeByPlaceId.
    rewrite Hid, Hreply. reflexivity.
  - cbn [address position]. unfold position_or_sentinel.
    split; [reflexivity|].
    split; [intros loc Hloc | intros Hloc]; rewrite Hloc; reflexivity.
Qed.

Lemma handleSelect_provider_success_pune :
  exists v : AddressValue,
    handleSelect (world_answering pune) (Some pune_option) handleFieldChange
    = ([CallGeocodeByPlaceId (placeId pune_option); FieldOnChange v],
       Returned tt)
    /\ address v = Some (formatted_address pune)
    /\ (forall loc, geometry_location pune = Some loc ->
                    position v = toJSON loc)
    /\ (geometry_location pune = None -> position v = sentinel).
Proof.
  apply (handleSelect_provider_success (world_answering pune) pune_option
           pune []); reflexivity.
Defined.

(** For Pune the provider's coordinate is written, and it is not the
    sentinel. *)
Example handleSelect_pune_resolved :
  writes (trace (handleSelect (world_answering pune) (Some pune_option)
                              handleFieldChange))
  = [ {| address := Some "Pune, Maharashtra, India";
         position := {| lat := 18.5; lng := 73.875 |} |} ]
  /\ {| lat := 18.5%float; lng := 73.875%float |} <> sentinel.
Proof.
  split; [reflexivity|].
  intros H. apply (f_equal (fun q => PrimFloat.eqb (lat q) 0)) in H.
  vm_compute in H. discriminate H.
Qed.

(** C1 fails as stated: the provider resolves with one result, yet the
    position written is the sentinel, both when the result has no geometry
    and when the place lies at latitude 0, longitude 0. *)
Lemma handleSelect_success_with_sentinel :
  writes (trace (handleSelect (world_answering pune_bare) (Some pune_option)
                              handleFieldChange))
  = [ {| address := Some "Pune, Maharashtra, India";
         position := sentinel |} ]
  /\ writes (trace (handleSelect (world_answering gulf_of_guinea)
                                 (Some pune_option) handleFieldChange))
     = [ {| address := Some "Gulf of Guinea"; position := sentinel |} ].
Proof. split; reflexivity. Qed.

(** C3: for a suggestion with a non-empty place id whose lookup is
    rejected, or resolves without a result, [handleSelect] hands exactly
    one value to [onChange]: the suggestion's description as the address,
    with the sentinel position. *)
Theorem handleSelect_provider_failure (w : World) (o : PlaceOption) :
  Js.truthy (placeId o) = true ->
  provider_fails (geocodeByPlaceId w (placeId o)) = true ->
  writes (trace (handleSelect w (Some o) handleFieldChange))
  = [ {| address := Some (description o); position := sentinel |} ]
  /\ outcome (handleSelect w (Some o) handleFieldChange) = Returned tt.
Proof.
  intros Hid Hfail.
  unfold handleSelect, awaitGeocodeByPlaceId. rewrite Hid.
  destruct (geocodeByPlaceId w (placeId o)) as [[[|r rs]|]|reason|];
    try discriminate Hfail; split; reflexivity.
Qed.

Lemma handleSelect_provider_failure_denied :
  writes (trace (handleSelect world_denied (Some pune_option)
                              handleFieldChange))
  = [ {| address := Some (description pune_option);
         position := sentinel |} ]
  /\ outcome (handleSelect world_denied (Some pune_option) handleFieldChange)
     = Returned tt.
Proof.
  apply (handleSelect_provider_failure world_denied pune_option);
    reflexivity.
Defined.

(** C5: selecting an option whose place id is the empty string writes
    [{address: "", position: {0,0}}]; with no option, or with an empty
    suggestion state, the value written is
    [{address: undefined, position: {0,0}}].  No provider is consulted. *)
Theorem empty_and_absent_selection
    (w : World) (text : string) (c : Component) :
  let empty_option := {| description := text; placeId := "" |} in
  let cleared := {| address := Some ""; position := sentinel |} in
  let unset := {| address := None; position := sentinel |} in
  handleSelect w (Some empty_option) handleFieldChange
  = ([FieldOnChange cleared], Returned tt)
  /\ fieldValue
       (replay c (trace (handleSelect w (Some empty_option)
                                      handleFieldChange)))
     = Some cleared
  /\ handleSelect w None handleFieldChange
     = ([FieldOnChange unset], Returned tt)
  /\ selectionEffect w [] = ([FieldOnChange unset], Returned tt)
  /\ fieldValue (replay c (trace (selectionEffect w []))) = Some unset.
Proof. repeat split. Qed.

(** *** Geolocation *)

Lemma statedOptions_eq :
  statedOptions
  = {| enableHighAccuracy := true; timeout := 10000; maximumAge := 300000 |}.
Proof. reflexivity. Qed.

(** Unfolds a detection run down to the replies of the outside world. *)
Ltac unfold_run :=
  unfold handleAutoLocation, awaitPosition, awaitReverseGeocode,
    geometry_location, fixLocation in *;
  rewrite ?statedOptions_eq in *.

(** When the position fix is obtained and reverse geocoding answers OK
    with at least one result carrying a location, [handleAutoLocation]
    writes the first result's formatted address and coordinates to the
    bound field, replaces the suggestion list by a single entry whose
    description is that formatted address, and ends in [success]. *)
Theorem handleAutoLocation_success
    (w : World) (c : Component) (p : GeolocationPosition)
    (r0 : GeocoderResult) (rs : list GeocoderResult) (loc : LatLng) :
  navigator_geolocation w = true ->
  getCurrentPosition w statedOptions = PositionFix p ->
  geocoder_geocode w (fixLocation p)
    = GeocoderCallback (Some (r0 :: rs)) "OK" ->
  geometry_location r0 = Some loc ->
  let t := trace (handleAutoLocation true true w) in
  let resolved := {| address := Some (formatted_address r0);
                     position := {| lat := LatLng_lat loc;
                                    lng := LatLng_lng loc |} |} in
  writes t = [resolved]
  /\ fieldValue (replay c t) = Some resolved
  /\ (exists s : Suggestion,
        state (replay c t) = [Some s]
        /\ sg_description s = formatted_address r0)
  /\ locationState (replay c t) = success
  /\ outcome (handleAutoLocation true true w) = Returned tt.
Proof.
  intros Hnav Hfix Hgeo Hloc. unfold_run.
  rewrite Hnav. cbn. rewrite Hfix. cbn. rewrite Hgeo. cbn.
  destruct (geometry r0) as [g|]; [|discriminate Hloc].
  rewrite Hloc. cbn.
  repeat split. exists (detectedSuggestion r0). split; reflexivity.
Qed.

Lemma handleAutoLocation_success_pune :
  let t := trace (handleAutoLocation true true (world_answering pune)) in
  let resolved := {| address := Some (formatted_address pune);
                     position := {| lat := LatLng_lat pune_center;
                                    lng := LatLng_lng pune_center |} |} in
  writes t = [resolved]
  /\ fieldValue (replay (mount None) t) = Some resolved
  /\ (exists s : Suggestion,
        state (replay (mount None) t) = [Some s]
        /\ sg_description s = formatted_address pune)
  /\ locationState (replay (mount None) t) = success
  /\ outcome (handleAutoLocation true true (world_answering pune))
     = Returned tt.
Proof.
  apply (handleAutoLocation_success (world_answering pune) (mount None)
           a_fix pune [] pune_center); reflexivity.
Defined.

(** C4, as the code has it: when the position fix is obtained and reverse
    geocoding answers OK with at least one result, what [handleAutoLocation]
    does depends on the first result.  If it carries a location, the
    formatted address and that location's coordinates are written to the
    bound field, the suggestion list becomes the single detected entry,
    whose description is the formatted address, and the state ends in
    [success].  If it carries none, nothing is written, the suggestion
    list stays as it was and the state goes back to [idle]. *)
Theorem handleAutoLocation_after_reverse_geocoding
    (w : World) (c : Component) (p : GeolocationPosition)
    (r0 : GeocoderResult) (rs : list GeocoderResult) :
  navigator_geolocation w = true ->
  getCurrentPosition w statedOptions = PositionFix p ->
  geocoder_geocode w (fixLocation p)
    = GeocoderCallback (Some (r0 :: rs)) "OK" ->
  let t := trace (handleAutoLocation true true w) in
  match geometry_location r0 with
  | Some loc =>
      let resolved := {| address := Some (formatted_address r0);
                         position := {| lat := LatLng_lat loc;
                                        lng := LatLng_lng loc |} |} in
      writes t = [resolved]
      /\ fieldValue (replay c t) = Some resolved
      /\ state (replay c t) = [Some (detectedSuggestion r0)]
      /\ sg_description (detectedSuggestion r0) = formatted_address r0
      /\ locationState (replay c t) = success
  | None =>
      writes t = []
      /\ fieldValue (replay c t) = fieldValue c
      /\ state (replay c t) = state c
      /\ locationState (replay c t) = idle
  end
  /\ outcome (handleAutoLocation true true w) = Returned tt.
Proof.
  intros Hnav Hfix Hgeo. unfold_run.
  rewrite Hnav. cbn. rewrite Hfix. cbn. rewrite Hgeo. cbn.
  destruct (geometry r0) as [g|]; [|repeat split].
  destruct (location g) as [loc|]; repeat split.
Qed.

Lemma handleAutoLocation_after_reverse_geocoding_pune :
  let t := trace (handleAutoLocation true true (world_answering pune)) in
  match geometry_location pune with
  | Some loc =>
      let resolved := {| address := Some (formatted_address pune);
                         position := {| lat := LatLng_lat loc;
                                        lng := LatLng_lng loc |} |} in
      writes t = [resolved]
      /\ fieldValue (replay (mount None) t) = Some resolved
      /\ state (replay (mount None) t) = [Some (detectedSuggestion pune)]
      /\ sg_description (detectedSuggestion pune) = formatted_address pune
      /\ locationState (replay (mount None) t) = success
  | None =>
      writes t = []
      /\ fieldValue (replay (mount None) t) = fieldValue (mount None)
      /\ state (replay (mount None) t) = state (mount None)
      /\ locationState (replay (mount None) t) = idle
  end
  /\ outcome (handleAutoLocation true true (world_answering pune))
     = Returned tt.
Proof.
  apply (handleAutoLocation_after_reverse_geocoding (world_answering pune)
           (mount None) a_fix pune []); reflexivity.
Defined.

(** C4 fails as stated: the fix is obtained and reverse geocoding answers
    OK with one result, but that result has no geometry; the run writes
    nothing, leaves the suggestion list alone and ends in [idle]. *)
Lemma detection_of_bare_result_writes_nothing :
  getCurrentPosition (world_answering pune_bare) statedOptions
  = PositionFix a_fix
  /\ geocoder_geocode (world_answering pune_bare) (fixLocation a_fix)
     = GeocoderCallback (Some [pune_bare]) "OK"
  /\ trace (handleAutoLocation true true (world_answering pune_bare))
     = [ SetLocationState requesting; SetHasRequestedLocation true;
         SetLocationState detecting; CallGetCurrentPosition statedOptions;
         SetLocationState geocoding; CallGeocode (fixLocation a_fix);
         SetLocationState idle ]
  /\ writes (trace (handleAutoLocation true true (world_answering pune_bare)))
     = []
  /\ locationState
       (replay (mount None)
          (trace (handleAutoLocation true true (world_answering pune_bare))))
     = idle.
Proof. repeat split. Qed.

(** The entry built for a detected address splits it at the first comma. *)
Example detected_entry_of_pune :
  detectedSuggestion pune
  = {| sg_id := "detected-location";
       sg_active := false;
       sg_index := 0;
       sg_formattedSuggestion := MainSecondary "Pune" "Maharashtra, India";
       sg_description := "Pune, Maharashtra, India";
       sg_placeId := "ChIJARFGZy6_wjsRQ-Oenb9DjYI";
       sg_matchedSubstrings := [];
       sg_terms := [];
       sg_types := [] |}.
Proof. reflexivity. Qed.

(** The selection effect that follows the new suggestion state looks the
    detected entry up again by its place id; an entry whose result had no
    place id is an empty option, and the effect clears the field. *)
Example selection_effect_after_detection :
  let nameless := {| formatted_address := "Pune, Maharashtra, India";
                     geometry := Some {| location := Some pune_center |};
                     place_id := None |} in
  writes (trace (selectionEffect (world_answering pune)
                                 [Some (detectedSuggestion pune)]))
  = [ {| address := Some "Pune, Maharashtra, India";
         position := toJSON pune_center |} ]
  /\ writes (trace (selectionEffect (world_answering nameless)
                                    [Some (detectedSuggestion nameless)]))
     = [ {| address := Some ""; position := sentinel |} ].
Proof. split; reflexivity. Qed.

(** C2: whichever stage of an attempt fails (no geolocation support, the
    position request refused or timed out, reverse geocoding without a
    usable answer), the run ends normally with the location state back at
    [idle]; [field.onChange] is never called, so the bound value is what it
    was, and nothing is sent to the console, the suggestion list or the
    manual-entry notice. *)
Theorem handleAutoLocation_failure_is_silent (w : World) (c : Component) :
  Failure w ->
  let t := trace (handleAutoLocation true true w) in
  locationState (replay c t) = idle
  /\ writes t = []
  /\ fieldValue (replay c t) = fieldValue c
  /\ forallb quiet t = true
  /\ outcome (handleAutoLocation true true w) = Returned tt.
Proof.
  intros Hfail. cbv zeta. rewrite fieldValue_replay, locationState_replay.
  destruct Hfail as [Hnav | code Hnav Hpos | p results status Hnav Hpos Hgeo Hbad
                    | p r0 rs Hnav Hpos Hgeo Hloc];
    unfold_run; rewrite Hnav; cbn.
  - repeat split.
  - rewrite Hpos. repeat split.
  - rewrite Hpos. cbn. rewrite Hgeo.
    destruct results as [[|r rs]|]; cbn.
    + destruct (status =? "OK"); repeat split.
    + cbn in Hbad. rewrite Hbad. repeat split.
    + repeat split.
  - rewrite Hpos. cbn. rewrite Hgeo. cbn.
    destruct (geometry r0) as [g|]; [rewrite Hloc|]; repeat split.
Qed.

Lemma handleAutoLocation_failure_is_silent_denied :
  let t := trace (handleAutoLocation true true world_denied) in
  locationState (replay (mount None) t) = idle
  /\ writes t = []
  /\ fieldValue (replay (mount None) t) = fieldValue (mount None)
  /\ forallb quiet t = true
  /\ outcome (handleAutoLocation true true world_denied) = Returned tt.
Proof.
  apply (handleAutoLocation_failure_is_silent world_denied (mount None)).
  apply (position_failed world_denied PERMISSION_DENIED); reflexivity.
Defined.


(** *** The location state machine *)

(** Splits on every reply of the outside world a goal depends on. *)
Ltac split_world :=
  repeat match goal with
    | H : geocoder_geocode ?w ?l = _ |- context [geocoder_geocode ?w ?l] =>
        rewrite H; cbn
    | H : geocodeByPlaceId ?w ?i = _ |- context [geocodeByPlaceId ?w ?i] =>
        rewrite H; cbn
    | H : geometry ?r = _ |- context [geometry ?r] => rewrite H; cbn
    | H : location ?g = _ |- context [location ?g] => rewrite H; cbn
    | |- context [navigator_geolocation ?w] =>
        destruct (navigator_geolocation w) eqn:?; cbn
    | |- context [getCurrentPosition ?w ?o] =>
        destruct (getCurrentPosition w o) eqn:?; cbn
    | |- context [geocoder_geocode ?w ?l] =>
        destruct (geocoder_geocode w l) as [[[|? ?]|] ?|] eqn:?; cbn
    | |- context [geocodeByPlaceId ?w ?i] =>
        destruct (geocodeByPlaceId w i) as [[[|? ?]|]|?|] eqn:?; cbn
    | |- context [String.eqb ?s "OK"] =>
        destruct (String.eqb s "OK") eqn:?; cbn
    | |- context [geometry ?r] =>
        destruct (geometry r) as [?|] eqn:?; cbn
    | |- context [location ?g] =>
        destruct (location g) as [?|] eqn:?; cbn
    end.

(** A run that passed both guards moves along the chain and, if it
    fails, steps back to [idle]. *)
Lemma handleAutoLocation_follows (w : World) :
  follows silent_transition idle
    (locationStates (trace (handleAutoLocation true true w))) = true.
Proof. unfold_run. cbn. split_world; reflexivity. Qed.

(** A blocked call leaves the location state alone. *)
Lemma handleAutoLocation_guarded (autoDetectLocation loaded : bool)
    (w : World) :
  autoDetectLocation && loaded = false ->
  locationStates (trace (handleAutoLocation autoDetectLocation loaded w))
  = []
  /\ writes (trace (handleAutoLocation autoDetectLocation loaded w)) = [].
Proof.
  unfold handleAutoLocation.
  destruct autoDetectLocation, loaded; intros H;
    try discriminate H; split; reflexivity.
Qed.


(** After a run the request flag is set, so the effect never arms again. *)
Lemma autoDetect_runs_once (w : World) (c : Component) :
  autoDetectCondition true
    (replay c (trace (handleAutoLocation true true w))) = false.
Proof.
  assert (Hflag : hasRequestedLocation
                    (replay c (trace (handleAutoLocation true true w)))
                  = true)
    by (unfold_run; cbn; split_world; reflexivity).
  unfold autoDetectCondition. rewrite Hflag.
  rewrite andb_false_r. reflexivity.
Qed.



Lemma handleSelect_locationStates (w : World) (o : option PlaceOption) :
  locationStates (trace (handleSelect w o handleFieldChange)) = [].
Proof.
  unfold handleSelect, awaitGeocodeByPlaceId.
  destruct o as [o|]; [|reflexivity].
  destruct (Js.truthy (placeId o)); cbn; [|reflexivity].
  split_world; reflexivity.
Qed.

Lemma autoDetectCondition_true (autoDetectLocation : bool) (c : Component) :
  autoDetectCondition autoDetectLocation c = true ->
  autoDetectLocation = true /\ apiLoaded c = true
  /\ hasRequestedLocation c = false /\ locationState c = idle.
Proof.
  unfold autoDetectCondition.
  destruct autoDetectLocation, (apiLoaded c), (hasAddress (fieldValue c)),
    (hasRequestedLocation c), (locationState c);
    cbn; intros H; try discriminate H; repeat split.
Qed.

(** Whatever happens to the component, its location state moves by the
    transitions of the run. *)
Lemma handle_follows (autoDetectLocation : bool) (w : World)
    (c : Component) (a : Action) :
  follows silent_transition (locationState c)
    (locationStates (trace (handle autoDetectLocation w c a))) = true.
Proof.
  destruct a as [| |status|v|inputValue actionMeta|v selected|];
    cbn [handle].
  - reflexivity.
  - destruct (autoDetectCondition autoDetectLocation c) eqn:Hcond;
      [|reflexivity].
    apply autoDetectCondition_true in Hcond.
    destruct Hcond as (-> & -> & _ & ->).
    apply handleAutoLocation_follows.
  - reflexivity.
  - reflexivity.
  - unfold onInputChange.
    destruct (allowManualInput c && is_input_change actionMeta);
      reflexivity.
  - destruct v, selected; reflexivity.
  - unfold selectionEffect. destruct (state c) as [|s0 rest]; [reflexivity|].
    rewrite handleSelect_locationStates. reflexivity.
Qed.

Lemma history_follows (autoDetectLocation : bool) (w : World)
    (actions : list Action) (c : Component) :
  follows silent_transition (locationState c)
    (locationStates (history autoDetectLocation w c actions)) = true
  /\ locationState (run autoDetectLocation w c actions)
     = last (locationStates (history autoDetectLocation w c actions))
            (locationState c).
Proof.
  revert c. induction actions as [|a rest IH]; intros c.
  - split; reflexivity.
  - cbn [history run fold_left].
    destruct (IH (step autoDetectLocation w c a)) as [IHf IHl].
    rewrite locationStates_app, follows_app, last_app_from.
    unfold step in IHf, IHl |- *.
    rewrite locationState_replay in IHf, IHl.
    rewrite handle_follows, IHf. split; [reflexivity | exact IHl].
Qed.

Lemma follows_in_use (s : LocationState) (l : list LocationState) :
  in_use s = true ->
  follows silent_transition s l = true ->
  in_use (last l s) = true.
Proof.
  revert s. induction l as [|s' l IH]; intros s Hs Hf; [exact Hs|].
  rewrite last_cons. cbn [follows] in Hf.
  apply andb_true_iff in Hf. destruct Hf as [Hstep Hrest].
  apply IH; [|exact Hrest].
  destruct s, s'; try discriminate Hstep; reflexivity.
Qed.

(** C8, as the code has it: along any life of the component, starting
    from its mount, the location state only moves one stage forward along
    [idle -> requesting -> detecting -> geocoding -> success], or from a
    stage in progress back to [idle]; the state reached is never [error]
    nor [denied]. *)
Theorem locationState_transitions
    (autoDetectLocation : bool) (w : World) (fv : option AddressValue)
    (actions : list Action) :
  follows silent_transition idle
    (locationStates (history autoDetectLocation w (mount fv) actions))
  = true
  /\ in_use (locationState (run autoDetectLocation w (mount fv) actions))
     = true.
Proof.
  destruct (history_follows autoDetectLocation w actions (mount fv))
    as [Hf Hl].
  split; [exact Hf|].
  rewrite Hl. apply follows_in_use; [reflexivity | exact Hf].
Qed.

(** C8 fails as stated: when the permission prompt is refused the run goes
    [requesting], [detecting], then back to [idle], which is no transition
    of the chain; it ends neither in [success] nor in [error]. *)
Lemma denied_run_leaves_chain :
  locationStates (trace (handleAutoLocation true true world_denied))
  = [requesting; detecting; idle]
  /\ follows chain_transition idle
       (locationStates (trace (handleAutoLocation true true world_denied)))
     = false.
Proof. split; reflexivity. Qed.

(** *** Writes to the bound field *)

(** Closes a goal about the values written by an explicit trace. *)
Ltac settle_writes :=
  cbn; unfold locations_of, geometry_location; split_world; cbn;
  intros Hin;
  repeat (destruct Hin as [<- | Hin]); try contradiction;
  (split;
   [ first [ left; reflexivity
           | right; eexists; split; [cbn; left; reflexivity | reflexivity] ]
   | intros Hnone; first [reflexivity | discriminate Hnone] ]).

(** C7: whatever the component does (a selection, an empty or absent
    selection, a detection, typed text), a value it writes to the bound
    field has as position either the sentinel [{0,0}] or the complete
    coordinate of a location the provider returned to a call of that same
    step; when the provider returned no location, it is the sentinel. *)
Theorem written_position_sentinel_or_resolved
    (autoDetectLocation : bool) (w : World) (c : Component) (a : Action)
    (v : AddressValue) :
  let t := trace (handle autoDetectLocation w c a) in
  In v (writes t) ->
  (position v = sentinel
   \/ exists loc : LatLng,
        In loc (provider_locations w t) /\ position v = toJSON loc)
  /\ (provider_locations w t = [] -> position v = sentinel).
Proof.
  cbv zeta.
  destruct a as [| |status|text|inputValue actionMeta|s selected|];
    cbn [handle].
  - settle_writes.
  - destruct (autoDetectCondition autoDetectLocation c) eqn:Hcond;
      [|settle_writes].
    apply autoDetectCondition_true in Hcond.
    destruct Hcond as (-> & -> & _ & _).
    unfold_run. unfold locations_of, geometry_location. cbn.
    split_world; settle_writes.
  - settle_writes.
  - settle_writes.
  - unfold onInputChange.
    destruct (allowManualInput c && is_input_change actionMeta);
      settle_writes.
  - destruct s, selected; settle_writes.
  - unfold selectionEffect.
    destruct (state c) as [|[s0|] rest]; try settle_writes.
    unfold handleSelect, awaitGeocodeByPlaceId, position_or_sentinel,
      locations_of, geometry_location.
    cbn [option_map asPlaceOption placeId description].
    destruct (Js.truthy (sg_placeId s0)); cbn; [|settle_writes].
    split_world; settle_writes.
Qed.

Lemma written_position_pune :
  let t := trace (handle true (world_answering pune)
                         (step true (world_answering pune) (mount None)
                               MapsApiLoaded)
                         AutoDetectTimerFired) in
  let v := {| address := Some "Pune, Maharashtra, India";
              position := toJSON pune_center |} in
  In v (writes t)
  /\ (position v = sentinel
      \/ exists loc : LatLng,
           In loc (provider_locations (world_answering pune) t)
           /\ position v = toJSON loc)
  /\ (provider_locations (world_answering pune) t = []
      -> position v = sentinel).
Proof.
  assert (Hin : In {| address := Some "Pune, Maharashtra, India";
                      position := toJSON pune_center |}
                   (writes
                      (trace
                         (handle true (world_answering pune)
                            (step true (world_answering pune) (mount None)
                                  MapsApiLoaded)
                            AutoDetectTimerFired))))
    by (left; reflexivity).
  split; [exact Hin|].
  exact (written_position_sentinel_or_resolved true (world_answering pune)
           (step true (world_answering pune) (mount None) MapsApiLoaded)
           AutoDetectTimerFired _ Hin).
Defined.

(** *** Manual entry *)

(** Nothing ever switches manual entry off again. *)
Lemma step_keeps_manual_input (autoDetectLocation : bool) (w : World)
    (c : Component) (a : Action) :
  allowManualInput c = true ->
  allowManualInput (step autoDetectLocation w c a) = true.
Proof.
  intros Hon. unfold step.
  destruct a as [| |status|text|inputValue actionMeta|s selected|];
    cbn [handle].
  - exact Hon.
  - destruct (autoDetectCondition autoDetectLocation c) eqn:Hcond;
      [|exact Hon].
    apply autoDetectCondition_true in Hcond.
    destruct Hcond as (-> & -> & _ & _).
    unfold_run. cbn. split_world; exact Hon.
  - reflexivity.
  - exact Hon.
  - unfold onInputChange.
    destruct (allowManualInput c && is_input_change actionMeta); exact Hon.
  - destruct s, selected; exact Hon.
  - unfold selectionEffect.
    destruct (state c) as [|[s0|] rest]; try exact Hon.
    unfold handleSelect, awaitGeocodeByPlaceId.
    cbn [option_map asPlaceOption placeId description].
    destruct (Js.truthy (sg_placeId s0)); cbn; [|exact Hon].
    split_world; exact Hon.
Qed.

Lemma run_keeps_manual_input (autoDetectLocation : bool) (w : World)
    (actions : list Action) (c : Component) :
  allowManualInput c = true ->
  allowManualInput (run autoDetectLocation w c actions) = true.
Proof.
  revert c. induction actions as [|a rest IH]; intros c Hon; [exact Hon|].
  cbn [run fold_left]. apply IH. apply step_keeps_manual_input. exact Hon.
Qed.

(** C6, as the code has it: when the suggestion provider reports an
    error the suggestions are cleared and manual entry is switched on; it
    then stays on whatever happens next, and every text typed from then on
    is written to the bound field as [{address: text, position: {0,0}}]
    without any geocoding call; the text is still passed on to the
    autocomplete input handler, so the provider is still consulted. *)
Theorem manual_entry_after_provider_error
    (autoDetectLocation : bool) (w : World) (c : Component)
    (status : string) (actions : list Action) (text : string) :
  let c1 := step autoDetectLocation w c (ProviderError status) in
  let c2 := run autoDetectLocation w c1 actions in
  let typed := InputChange text (Some input_change) in
  let entry := {| address := Some text; position := sentinel |} in
  handle autoDetectLocation w c (ProviderError status)
  = ([ClearSuggestions; SetAllowManualInput true], Returned tt)
  /\ allowManualInput c2 = true
  /\ handle autoDetectLocation w c2 typed
     = ([FieldOnChange entry; InputPropsOnChange text], Returned tt)
  /\ fieldValue (step autoDetectLocation w c2 typed) = Some entry
  /\ existsb is_geocode_call (trace (handle autoDetectLocation w c2 typed))
     = false
  /\ existsb reaches_provider (trace (handle autoDetectLocation w c2 typed))
     = true.
Proof.
  cbv zeta.
  assert (Hon : allowManualInput
                  (run autoDetectLocation w
                       (step autoDetectLocation w c (ProviderError status))
                       actions) = true)
    by (apply run_keeps_manual_input; reflexivity).
  set (c2 := run autoDetectLocation w
                 (step autoDetectLocation w c (ProviderError status))
                 actions) in *.
  assert (Hh : handle autoDetectLocation w c2
                      (InputChange text (Some input_change))
               = ([FieldOnChange {| address := Some text;
                                    position := sentinel |};
                   InputPropsOnChange text], Returned tt))
    by (cbn [handle]; unfold onInputChange; rewrite Hon; reflexivity).
  split; [reflexivity|].
  split; [exact Hon|]. split; [exact Hh|].
  unfold step. rewrite Hh. repeat split.
Qed.

(** C6 fails as stated: after a provider error, typed text still reaches
    the suggestion provider through the autocomplete input handler. *)
Lemma manual_mode_still_feeds_provider :
  allowManualInput after_provider_error = true
  /\ trace (handle false world_denied after_provider_error
                   (InputChange "MG Road" (Some input_change)))
     = [ FieldOnChange {| address := Some "MG Road"; position := sentinel |};
         InputPropsOnChange "MG Road" ]
  /\ existsb reaches_provider
       (trace (handle false world_denied after_provider_error
                      (InputChange "MG Road" (Some input_change))))
     = true.
Proof. repeat split. Qed.

End AddressFacts.

(** ** Properties of the multi-image input *)

Module MultiImageFacts.

Import MultiImage.
Open Scope Z_scope.

(** Whether a file is kept by one turn of the validation loop. *)
Lemma validateOne_fst (p : Props) (vs : list File) (es : list string)
    (f : File) :
  fst (validateOne p (vs, es) f)
  = vs ++ (if acceptable p f then [f] else []).
Proof.
  unfold validateOne, acceptable.
  destruct (includes (acceptedTypes p) (file_type f));
    cbn [negb andb fst]; [|symmetry; apply app_nil_r].
  rewrite Z.gtb_ltb.
  destruct (Z.ltb_spec (maxFileSize p * 1024 * 1024) (file_size f));
    destruct (Z.leb_spec (file_size f) (maxFileSize p * (1024 * 1024)));
    cbn [fst]; try lia; [symmetry; apply app_nil_r | reflexivity].
Qed.

Lemma validate_fold_fst (p : Props) (files : list File)
    (acc : list File * list string) :
  fst (fold_left (validateOne p) files acc)
  = fst acc ++ filter (acceptable p) files.
Proof.
  revert acc. induction files as [|f files IH]; intros [vs es].
  - cbn. symmetry; apply app_nil_r.
  - cbn [fold_left filter]. rewrite IH, validateOne_fst.
    rewrite <- app_assoc.
    destruct (acceptable p f); reflexivity.
Qed.

(** [validateFiles] keeps exactly the acceptable files, in their order. *)
Lemma validateFiles_valid (p : Props) (files : list File) :
  fst (validateFiles p files) = filter (acceptable p) files.
Proof. unfold validateFiles. apply validate_fold_fst. Qed.

(** What the shared part of both handlers does to the bound value and to
    the local errors. *)
Lemma acceptFiles_spec (p : Props) (files : list File) (st : State) :
  let valid := filter (acceptable p) files in
  let total := Z.of_nat (List.length (currentFilesOf st))
               + Z.of_nat (List.length valid) in
  acceptFiles p files st
  = if total >? maxFiles p
    then (mkState (isDragOver st)
                  (validationErrors p files ++ [maxFilesMessage p])
                  (fieldValue st) (inputValue st), false)
    else (mkState (isDragOver st) (validationErrors p files)
                  (Some (currentFilesOf st ++ valid)) (inputValue st), true).
Proof.
  cbv zeta. unfold acceptFiles, validationErrors.
  rewrite <- validateFiles_valid.
  destruct (validateFiles p files) as [vs es]. reflexivity.
Qed.

(** C10: a file-drop or file-select event changes the bound file list, if
    at all, to the current files followed by exactly the incoming files
    whose type is accepted and whose size is at most [maxFileSize]
    megabytes, in their order; when that would make more than [maxFiles]
    files, the bound value is left as it was, and for an event that
    carries files the local errors end with the maximum-files message. *)
Theorem bound_files_grow_by_acceptable
    (p : Props) (ev : FileEvent) (st : State) :
  let st' := onFileEvent p ev st in
  let valid := filter (acceptable p) (incoming ev) in
  let total := Z.of_nat (List.length (currentFilesOf st))
               + Z.of_nat (List.length valid) in
  if total >? maxFiles p
  then fieldValue st' = fieldValue st
       /\ match incoming ev with
          | [] => True
          | _ :: _ =>
              errors st'
              = validationErrors p (incoming ev) ++ [maxFilesMessage p]
          end
  else fieldValue st' = fieldValue st
       \/ fieldValue st' = Some (currentFilesOf st ++ valid).
Proof.
  cbv zeta.
  destruct ev as [[[|f files]|]|[files|]]; cbn [onFileEvent incoming].
  - cbn. destruct (_ >? _); [split|left]; trivial.
  - unfold handleDrop. rewrite acceptFiles_spec.
    change (currentFilesOf (mkState false (errors st) (fieldValue st)
                                    (inputValue st)))
      with (currentFilesOf st).
    destruct (_ >? _); cbn; [split; reflexivity | right; reflexivity].
  - cbn. destruct (_ >? _); [split|left]; trivial.
  - unfold handleFileSelect. rewrite acceptFiles_spec.
    destruct (_ >? _); cbn.
    + split; [reflexivity|]. destruct files; [exact I | reflexivity].
    + right; reflexivity.
  - cbn. destruct (_ >? _); [split|left]; trivial.
Qed.

(** An event that carries files and stays within [maxFiles] does append
    them. *)
Lemma files_within_limit_are_appended
    (p : Props) (ev : FileEvent) (st : State) :
  incoming ev <> [] ->
  Z.of_nat (List.length (currentFilesOf st))
  + Z.of_nat (List.length (filter (acceptable p) (incoming ev)))
  <= maxFiles p ->
  fieldValue (onFileEvent p ev st)
  = Some (currentFilesOf st ++ filter (acceptable p) (incoming ev)).
Proof.
  intros Hfiles Hfit.
  destruct ev as [[[|f files]|]|[[|f files]|]];
    cbn [onFileEvent incoming] in *; try congruence.
  - unfold handleDrop. rewrite acceptFiles_spec.
    change (currentFilesOf (mkState false (errors st) (fieldValue st)
                                    (inputValue st)))
      with (currentFilesOf st).
    destruct (Z.gtb_spec
                (Z.of_nat (List.length (currentFilesOf st))
                 + Z.of_nat (List.length
                               (filter (acceptable p) (f :: files))))
                (maxFiles p)); [lia | reflexivity].
  - unfold handleFileSelect. rewrite acceptFiles_spec.
    destruct (Z.gtb_spec
                (Z.of_nat (List.length (currentFilesOf st))
                 + Z.of_nat (List.length
                               (filter (acceptable p) (f :: files))))
                (maxFiles p)); [lia | reflexivity].
Qed.

Example drop_keeps_the_photo :
  fieldValue (handleDrop defaultProps (Some [notes; photo; scan]) empty_form)
  = Some [photo]
  /\ errors (handleDrop defaultProps (Some [notes; photo; scan]) empty_form)
     = [ "notes.pdf: Invalid file type. Accepted: image/jpeg, image/jpg, image/png, image/webp";
         "scan.webp: File too large. Max: 20MB" ].
Proof. split; reflexivity. Qed.

Example select_over_the_limit :
  let p := {| maxFiles := 1; maxFileSize := 20;
              acceptedTypes := ["image/png"] |} in
  handleFileSelect p (Some [photo; photo]) empty_form
  = {| isDragOver := true;
       errors := ["Maximum 1 files allowed"];
       fieldValue := None;
       inputValue := "C:/fakepath/photo.png" |}.
Proof. reflexivity. Qed.

End MultiImageFacts.

(** ** Further properties of the address input *)

Module AddressMore.

Import Address.
Import AddressFacts.

(** *** Strings *)

Lemma split_nonempty (sep : ascii) (s : string) : Js.split sep s <> [].
Proof.
  destruct s as [|c s]; cbn [Js.split]; [discriminate|].
  destruct (Ascii.eqb c sep); [discriminate|].
  destruct (Js.split sep s); discriminate.
Qed.

(** Splitting around a separator splits both sides. *)
Lemma split_around (sep : ascii) (p q : string) :
  Js.split sep (p ++ String sep q) = Js.split sep p ++ Js.split sep q.
Proof.
  induction p as [|c p IH]; cbn [String.append Js.split].
  - rewrite Ascii.eqb_refl. reflexivity.
  - rewrite IH. destruct (Ascii.eqb c sep); [reflexivity|].
    pose proof (split_nonempty sep p) as Hne.
    destruct (Js.split sep p) as [|piece pieces]; [contradiction|reflexivity].
Qed.

Lemma split_comma_free (s : string) :
  comma_free s = true -> Js.split "," s = [s].
Proof.
  induction s as [|c s IH]; cbn [comma_free Js.split]; [reflexivity|].
  intros H. apply andb_true_iff in H. destruct H as [Hc Hs].
  apply negb_true_iff in Hc. rewrite Hc, (IH Hs). reflexivity.
Qed.

(** Joining the pieces of a split gives the string back. *)
Lemma join_split (sep : ascii) (s : string) :
  Js.join (String sep EmptyString) (Js.split sep s) = s.
Proof.
  unfold Js.join.
  induction s as [|c s IH]; cbn [Js.split]; [reflexivity|].
  pose proof (split_nonempty sep s) as Hne.
  destruct (Ascii.eqb c sep) eqn:Hc.
  - apply Ascii.eqb_eq in Hc. subst c.
    destruct (Js.split sep s) as [|piece pieces]; [contradiction|].
    rewrite <- IH. reflexivity.
  - destruct (Js.split sep s) as [|piece pieces]; [contradiction|].
    rewrite <- IH. destruct pieces; reflexivity.
Qed.

Lemma reverse_involutive (s : string) : Js.reverse (Js.reverse s) = s.
Proof.
  unfold Js.reverse.
  rewrite list_ascii_of_string_of_list_ascii, rev_involutive.
  apply string_of_list_ascii_of_string.
Qed.

Lemma strip_prefix_length (p s rest : string) :
  Js.strip_prefix p s = Some rest ->
  String.length s = (String.length p + String.length rest)%nat.
Proof.
  revert s. induction p as [|a p IH]; intros s H.
  - cbn in H. injection H as ->. reflexivity.
  - destruct s as [|b s]; [discriminate H|].
    cbn [Js.strip_prefix] in H.
    destruct (Ascii.eqb a b); [|discriminate H].
    cbn [String.length]. rewrite (IH s H). reflexivity.
Qed.

Lemma strip_any_shortens (prefixes : list string) (s rest : string) :
  Forall (fun p => p <> EmptyString) prefixes ->
  Js.strip_any prefixes s = Some rest ->
  (String.length rest < String.length s)%nat.
Proof.
  intros Hne. induction Hne as [|p others Hp _ IH]; intros H;
    [discriminate H|].
  cbn [Js.strip_any] in H.
  destruct (Js.strip_prefix p s) as [r|] eqn:Hs; [|exact (IH H)].
  injection H as ->. apply strip_prefix_length in Hs.
  destruct p; [contradiction|]. cbn [String.length] in Hs. lia.
Qed.

(** The fuel of [strip_all] is enough: nothing is left to strip. *)
Lemma strip_all_done (prefixes : list string) (fuel : nat) (s : string) :
  Forall (fun p => p <> EmptyString) prefixes ->
  (String.length s <= fuel)%nat ->
  Js.strip_any prefixes (Js.strip_all fuel prefixes s) = None.
Proof.
  intros Hne. revert s. induction fuel as [|fuel IH]; intros s Hlen.
  - destruct s; [|cbn in Hlen; lia]. cbn [Js.strip_all].
    clear Hlen. induction Hne as [|p others Hp _ IHne]; [reflexivity|].
    cbn [Js.strip_any]. destruct p; [contradiction|]. exact IHne.
  - cbn [Js.strip_all].
    destruct (Js.strip_any prefixes s) as [rest|] eqn:Hs; [|exact Hs].
    apply IH. pose proof (strip_any_shortens prefixes s rest Hne Hs). lia.
Qed.

Lemma white_space_nonempty :
  Forall (fun p => p <> EmptyString) Js.white_space
  /\ Forall (fun p => p <> EmptyString) (map Js.reverse Js.white_space).
Proof. split; repeat constructor; discriminate. Qed.

Lemma length_of_list_ascii (l : list ascii) :
  String.length (string_of_list_ascii l) = List.length l.
Proof.
  induction l as [|a l IH]; [reflexivity|].
  cbn [string_of_list_ascii String.length List.length].
  rewrite IH. reflexivity.
Qed.

Lemma reverse_length (s : string) :
  String.length (Js.reverse s) = String.length s.
Proof.
  unfold Js.reverse. rewrite length_of_list_ascii, length_rev.
  rewrite <- (string_of_list_ascii_of_string s) at 2.
  rewrite length_of_list_ascii. reflexivity.
Qed.

(** A trimmed string neither starts nor ends with white space. *)
Lemma trim_leaves_no_white_space (s : string) :
  Js.strip_any Js.white_space (Js.trimStart s) = None
  /\ Js.strip_any (map Js.reverse Js.white_space) (Js.reverse (Js.trimEnd s))
     = None.
Proof.
  destruct white_space_nonempty as [Hfront Hback].
  unfold Js.trimStart, Js.trimEnd. split.
  - apply strip_all_done; [exact Hfront | lia].
  - rewrite reverse_involutive. apply strip_all_done; [exact Hback|].
    rewrite reverse_length. lia.
Qed.

(** A no-break space and an ideographic space are trimmed like a blank. *)
Example trim_wide_spaces :
  Js.trim (Js.bytes [194; 160; 32] ++ "Pune"
           ++ Js.bytes [227; 128; 128; 9])%string
  = "Pune"
  /\ secondaryTextOf ("MG Road," ++ Js.bytes [194; 160] ++ "Pune")%string
     = "Pune".
Proof. split; reflexivity. Qed.

(** X1: the entry shown for a detected address splits it at its first
    comma: the main text is what precedes it (the whole address when
    nothing does), the secondary text is the rest, trimmed.  An address
    without a comma is its own main text and has no secondary text. *)
Theorem detected_texts_split_at_first_comma (head rest : string) :
  comma_free head = true ->
  mainTextOf (head ++ "," ++ rest)
  = (if Js.truthy head then head else (head ++ "," ++ rest)%string)
  /\ secondaryTextOf (head ++ "," ++ rest) = Js.trim rest
  /\ mainTextOf head = head
  /\ secondaryTextOf head = "".
Proof.
  intros Hfree. unfold mainTextOf, secondaryTextOf.
  change (head ++ "," ++ rest)%string with (head ++ String "," rest)%string.
  rewrite split_around, (split_comma_free head Hfree).
  cbn [app Js.first Js.opt_or_else Js.slice1 tl].
  rewrite (join_split "," rest).
  repeat split.
  - unfold Js.or_else. destruct (Js.truthy (Js.trim rest)) eqn:Ht;
      [reflexivity|]. destruct (Js.trim rest); [reflexivity|discriminate Ht].
  - unfold Js.or_else. destruct head; reflexivity.
Qed.

Lemma detected_texts_of_mg_road :
  mainTextOf ("MG Road" ++ "," ++ " Pune ")
  = (if Js.truthy "MG Road" then "MG Road"
     else ("MG Road" ++ "," ++ " Pune ")%string)
  /\ secondaryTextOf ("MG Road" ++ "," ++ " Pune ") = Js.trim " Pune "
  /\ mainTextOf "MG Road" = "MG Road"
  /\ secondaryTextOf "MG Road" = "".
Proof.
  apply (detected_texts_split_at_first_comma "MG Road" " Pune ").
  reflexivity.
Defined.

(** *** Form errors by field path *)

Section NestedErrorFacts.

Variable primitive_read : Primitive -> string -> JsValue.

Lemma walk_app (obj : JsValue) (keys more : list string) :
  walk primitive_read obj (keys ++ more)
  = match walk primitive_read obj keys with
    | Some node => walk primitive_read node more
    | None => None
    end.
Proof.
  revert obj. induction keys as [|key keys IH]; intros obj; [reflexivity|].
  cbn [app walk].
  destruct (read primitive_read obj key); try reflexivity; apply IH.
Qed.

(** X2: looking an error up under [path.more] is looking [more] up in the
    value found by walking [path]; when a key of [path] is missing the
    result is [undefined], whatever follows. *)
Theorem getNestedError_composes (obj : JsValue) (path more : string) :
  getNestedError primitive_read obj (path ++ "." ++ more)
  = match walk primitive_read obj (Js.split "." path) with
    | Some node => getNestedError primitive_read node more
    | None => VUndefined
    end.
Proof.
  unfold getNestedError.
  change (path ++ "." ++ more)%string with (path ++ String "." more)%string.
  rewrite split_around, walk_app.
  destruct (walk primitive_read obj (Js.split "." path)); reflexivity.
Qed.

(** X3: the two errors of an address field are read off one node of the
    error object, the one under the field's name: [formError] is its
    [message] and [addressError] the [message] of its [address]; without
    that node both are [undefined]. *)
Theorem field_errors_share_a_node (errors : JsValue) (name : string) :
  match walk primitive_read errors (Js.split "." name) with
  | Some node =>
      formErrorOf primitive_read errors name = read primitive_read node "message"
      /\ addressErrorOf primitive_read errors name
         = match read primitive_read node "address" with
           | VUndefined => VUndefined
           | child => read primitive_read child "message"
           end
  | None =>
      formErrorOf primitive_read errors name = VUndefined
      /\ addressErrorOf primitive_read errors name = VUndefined
  end.
Proof.
  unfold formErrorOf, addressErrorOf.
  change (name ++ ".address")%string with (name ++ "." ++ "address")%string.
  rewrite getNestedError_composes. unfold getNestedError.
  destruct (walk primitive_read errors (Js.split "." name)) as [node|];
    [|split; reflexivity].
  split; [reflexivity|].
  cbn [Js.split Ascii.eqb Bool.eqb walk].
  destruct (read primitive_read node "address"); reflexivity.
Qed.

(** X4: without an error object ([undefined] or [null]) every path gives
    [undefined], the empty path included. *)
Theorem getNestedError_without_errors (path : string) :
  getNestedError primitive_read VUndefined path = VUndefined
  /\ getNestedError primitive_read VNull path = VUndefined.
Proof.
  unfold getNestedError.
  pose proof (split_nonempty "." path) as Hne.
  destruct (Js.split "." path) as [|key keys]; [contradiction|].
  split; reflexivity.
Qed.

End NestedErrorFacts.

Example sample_address_error :
  addressErrorOf bare_primitives sample_errors "location"
  = VString "Address is required"
  /\ formErrorOf bare_primitives sample_errors "location" = VUndefined
  /\ formErrorOf bare_primitives sample_errors "location.address"
     = VString "Address is required"
  /\ formErrorOf bare_primitives sample_errors "location.address.message"
     = VUndefined.
Proof. repeat split. Qed.

(** *** Mounting and selecting *)

(** X5: the effect that runs on the initial suggestion state overwrites
    the bound value without consulting the provider: a field mounted with
    a non-empty address is written [{address: "", position: {0,0}}], any
    other field [{address: undefined, position: {0,0}}]. *)
Theorem mount_effect_overwrites_value
    (w : World) (fv : option AddressValue) :
  selectionEffect w (state (mount fv))
  = ([FieldOnChange
        {| address := if hasAddress fv then Some "" else None;
           position := sentinel |}],
     Returned tt).
Proof.
  unfold mount, initialState, hasAddress. cbn [state].
  destruct fv as [v|]; [|reflexivity].
  destruct (address v) as [a|]; [|reflexivity].
  destruct (Js.truthy a); reflexivity.
Qed.

(** X6: [handleSelect] never throws and consults the provider at most
    once, only for a non-empty place id; it calls [onChange] exactly once,
    unless the lookup never settles, in which case it calls it not at
    all. *)
Theorem handleSelect_writes_once (w : World) (o : option PlaceOption) :
  let call := handleSelect w o handleFieldChange in
  List.length (writes (trace call))
  = (if lookup_unsettled w o then 0 else 1)%nat
  /\ outcome call = (if lookup_unsettled w o then Suspended else Returned tt)
  /\ placeLookups (trace call)
     = match o with
       | Some p => if Js.truthy (placeId p) then [placeId p] else []
       | None => []
       end.
Proof.
  cbv zeta. unfold handleSelect, awaitGeocodeByPlaceId, lookup_unsettled.
  destruct o as [p|]; [|repeat split].
  destruct (Js.truthy (placeId p)); cbn; [|repeat split].
  destruct (geocodeByPlaceId w (placeId p)) as [[[|r rs]|]|reason|];
    repeat split.
Qed.

(** *** Detection along the life of the component *)

Lemma positionRequests_app (t1 t2 : list Event) :
  positionRequests (t1 ++ t2) = positionRequests t1 ++ positionRequests t2.
Proof.
  induction t1 as [|e t1 IH]; [reflexivity|].
  destruct e; simpl; rewrite IH; reflexivity.
Qed.

Lemma handleSelect_asks_no_position (w : World) (o : option PlaceOption) :
  positionRequests (trace (handleSelect w o handleFieldChange)) = [].
Proof.
  unfold handleSelect, awaitGeocodeByPlaceId.
  destruct o as [o|]; [|reflexivity].
  destruct (Js.truthy (placeId o)); cbn; [|reflexivity].
  split_world; reflexivity.
Qed.

(** Only the armed timer asks for the position or moves the location
    state. *)
Lemma unarmed_handle_is_still (autoDetectLocation : bool) (w : World)
    (c : Component) (a : Action) :
  autoDetectCondition autoDetectLocation c = false ->
  positionRequests (trace (handle autoDetectLocation w c a)) = []
  /\ locationStates (trace (handle autoDetectLocation w c a)) = []
  /\ hasRequestedLocation (step autoDetectLocation w c a)
     = hasRequestedLocation c
  /\ locationState (step autoDetectLocation w c a) = locationState c.
Proof.
  intros Hoff. unfold step.
  destruct a as [| |status|text|inputValue actionMeta|s selected|];
    cbn [handle].
  - repeat split.
  - rewrite Hoff. repeat split.
  - repeat split.
  - repeat split.
  - unfold onInputChange.
    destruct (allowManualInput c && is_input_change actionMeta);
      repeat split.
  - destruct s, selected; repeat split.
  - unfold selectionEffect.
    destruct (state c) as [|[s0|] rest]; try (repeat split; fail).
    unfold handleSelect, awaitGeocodeByPlaceId.
    cbn [option_map asPlaceOption placeId description].
    destruct (Js.truthy (sg_placeId s0)); cbn; [|repeat split].
    split_world; repeat split.
Qed.

(** An armed timer asks once at most and raises the request flag. *)
Lemma armed_timer_asks_once (w : World) (c : Component) :
  autoDetectCondition true c = true ->
  (List.length
     (positionRequests (trace (handle true w c AutoDetectTimerFired)))
   <= 1)%nat
  /\ hasRequestedLocation (step true w c AutoDetectTimerFired) = true.
Proof.
  intros Hon. unfold step. cbn [handle]. rewrite Hon.
  apply autoDetectCondition_true in Hon.
  destruct Hon as (_ & -> & _ & _).
  unfold_run. cbn. split_world; split; (reflexivity || (cbn; lia)).
Qed.

Lemma flagged_is_unarmed (autoDetectLocation : bool) (c : Component) :
  hasRequestedLocation c = true ->
  autoDetectCondition autoDetectLocation c = false.
Proof.
  intros Hflag. unfold autoDetectCondition. rewrite Hflag.
  cbn [negb]. rewrite andb_false_r. reflexivity.
Qed.

Lemma flagged_history_asks_nothing (autoDetectLocation : bool) (w : World)
    (actions : list Action) (c : Component) :
  hasRequestedLocation c = true ->
  positionRequests (history autoDetectLocation w c actions) = [].
Proof.
  revert c. induction actions as [|a rest IH]; intros c Hflag;
    [reflexivity|].
  cbn [history]. rewrite positionRequests_app.
  destruct (unarmed_handle_is_still autoDetectLocation w c a
              (flagged_is_unarmed autoDetectLocation c Hflag))
    as (-> & _ & Hkeep & _).
  apply IH. rewrite Hkeep. exact Hflag.
Qed.

Lemma only_the_timer_asks (autoDetectLocation : bool) (w : World)
    (c : Component) (a : Action) :
  match a with
  | AutoDetectTimerFired => True
  | _ => positionRequests (trace (handle autoDetectLocation w c a)) = []
  end.
Proof.
  destruct a as [| |status|text|inputValue actionMeta|s selected|];
    cbn [handle]; try exact I; try reflexivity.
  - unfold onInputChange.
    destruct (allowManualInput c && is_input_change actionMeta); reflexivity.
  - destruct s, selected; reflexivity.
  - unfold selectionEffect.
    destruct (state c) as [|s0 more]; [reflexivity|].
    apply handleSelect_asks_no_position.
Qed.

Lemma history_asks_once (autoDetectLocation : bool) (w : World)
    (actions : list Action) (c : Component) :
  (List.length (positionRequests (history autoDetectLocation w c actions))
   <= 1)%nat.
Proof.
  revert c. induction actions as [|a rest IH]; intros c; [cbn; lia|].
  cbn [history]. rewrite positionRequests_app, length_app.
  destruct (autoDetectCondition autoDetectLocation c) eqn:Hcond.
  - pose proof (only_the_timer_asks autoDetectLocation w c a) as Hother.
    destruct a; try (rewrite Hother; cbn [List.length plus]; apply IH).
    destruct (autoDetectCondition_true _ _ Hcond) as (-> & _).
    destruct (armed_timer_asks_once w c Hcond) as [Hone Hflag].
    rewrite (flagged_history_asks_nothing true w rest _ Hflag).
    cbn [List.length]. lia.
  - destruct (unarmed_handle_is_still autoDetectLocation w c a Hcond)
      as (-> & _).
    cbn [List.length plus]. apply IH.
Qed.

(** X7: in the whole life of a mounted component the device is asked for
    its position at most once, whatever the user and the providers do. *)
Theorem position_asked_at_most_once
    (autoDetectLocation : bool) (w : World) (fv : option AddressValue)
    (actions : list Action) :
  (List.length
     (positionRequests (history autoDetectLocation w (mount fv) actions))
   <= 1)%nat.
Proof. apply history_asks_once. Qed.

(** X8: with [autoDetectLocation] off the component never asks for the
    position and never leaves the location state it is in. *)
Theorem detection_off_is_inert
    (w : World) (c : Component) (actions : list Action) :
  positionRequests (history false w c actions) = []
  /\ locationStates (history false w c actions) = []
  /\ locationState (run false w c actions) = locationState c.
Proof.
  revert c. induction actions as [|a rest IH]; intros c;
    [repeat split|].
  cbn [history run fold_left].
  rewrite positionRequests_app, locationStates_app.
  destruct (unarmed_handle_is_still false w c a eq_refl)
    as (-> & -> & _ & Hstate).
  destruct (IH (step false w c a)) as (-> & -> & Hrun).
  repeat split. unfold run in Hrun. rewrite Hrun. exact Hstate.
Qed.

(** *** Typed text *)

Lemma step_keeps_search_mode (autoDetectLocation : bool) (w : World)
    (c : Component) (a : Action) :
  is_provider_error a = false ->
  allowManualInput c = false ->
  allowManualInput (step autoDetectLocation w c a) = false.
Proof.
  intros Hok Hoff. unfold step.
  destruct a as [| |status|text|inputValue actionMeta|s selected|];
    cbn [handle].
  - exact Hoff.
  - destruct (autoDetectCondition autoDetectLocation c) eqn:Hcond;
      [|exact Hoff].
    apply autoDetectCondition_true in Hcond.
    destruct Hcond as (-> & -> & _ & _).
    unfold_run. cbn. split_world; exact Hoff.
  - discriminate Hok.
  - exact Hoff.
  - unfold onInputChange. rewrite Hoff. exact Hoff.
  - destruct s, selected; exact Hoff.
  - unfold selectionEffect.
    destruct (state c) as [|[s0|] rest]; try exact Hoff.
    unfold handleSelect, awaitGeocodeByPlaceId.
    cbn [option_map asPlaceOption placeId description].
    destruct (Js.truthy (sg_placeId s0)); cbn; [|exact Hoff].
    split_world; exact Hoff.
Qed.

(** X9: as long as the suggestion provider has reported no error, manual
    entry stays off and typed text is never written to the bound field; it
    only goes to the autocomplete input. *)
Theorem typed_text_not_written_in_search_mode
    (autoDetectLocation : bool) (w : World) (fv : option AddressValue)
    (actions : list Action) (text : string)
    (actionMeta : option InputAction) :
  existsb is_provider_error actions = false ->
  let c := run autoDetectLocation w (mount fv) actions in
  allowManualInput c = false
  /\ trace (handle autoDetectLocation w c (InputChange text actionMeta))
     = [InputPropsOnChange text].
Proof.
  intros Hnone. cbv zeta.
  assert (Hoff : allowManualInput
                   (run autoDetectLocation w (mount fv) actions) = false).
  { assert (Hgen : forall c, allowManualInput c = false ->
                     allowManualInput (run autoDetectLocation w c actions)
                     = false).
    { induction actions as [|a rest IH]; intros c Hc; [exact Hc|].
      cbn [existsb] in Hnone. apply orb_false_iff in Hnone.
      destruct Hnone as [Ha Hrest].
      cbn [run fold_left]. apply (IH Hrest).
      apply step_keeps_search_mode; assumption. }
    apply Hgen. reflexivity. }
  split; [exact Hoff|].
  cbn [handle]. unfold onInputChange. rewrite Hoff. reflexivity.
Qed.

Lemma typed_text_not_written_sample :
  let c := run true (world_answering pune) (mount None)
               [MapsApiLoaded; AutoDetectTimerFired; SelectionEffect] in
  allowManualInput c = false
  /\ trace (handle true (world_answering pune) c
                   (InputChange "MG Road" (Some input_change)))
     = [InputPropsOnChange "MG Road"].
Proof.
  apply (typed_text_not_written_in_search_mode true (world_answering pune)
           None [MapsApiLoaded; AutoDetectTimerFired; SelectionEffect]
           "MG Road" (Some input_change)).
  reflexivity.
Defined.

End AddressMore.

(** ** Further properties of the multi-image input *)

Module MultiImageMore.

Import MultiImage.
Import MultiImageFacts.
Open Scope Z_scope.

(** *** Validation *)

(** The arrays of [validateFiles] only grow at their ends. *)
Lemma validateOne_shift (p : Props) (f : File)
    (vs vs' : list File) (es es' : list string) :
  validateOne p (vs ++ vs', es ++ es') f
  = (vs ++ fst (validateOne p (vs', es') f),
     es ++ snd (validateOne p (vs', es') f)).
Proof.
  unfold validateOne.
  destruct (negb (includes (acceptedTypes p) (file_type f)));
    [|destruct (file_size f >? maxFileSize p * 1024 * 1024)];
    cbn [fst snd]; rewrite <- ?app_assoc; reflexivity.
Qed.

Lemma validate_fold_shift (p : Props) (files : list File)
    (vs vs' : list File) (es es' : list string) :
  fold_left (validateOne p) files (vs ++ vs', es ++ es')
  = (vs ++ fst (fold_left (validateOne p) files (vs', es')),
     es ++ snd (fold_left (validateOne p) files (vs', es'))).
Proof.
  revert vs' es'. induction files as [|f files IH]; intros vs' es';
    [reflexivity|].
  cbn [fold_left]. rewrite validateOne_shift.
  destruct (validateOne p (vs', es') f) as [vs1 es1]. cbn [fst snd].
  apply IH.
Qed.

(** X10: validation goes file by file: the valid files and the errors of a
    list are those of its parts, in order, and every file gives either one
    valid file or one error. *)
Theorem validateFiles_file_by_file (p : Props) (files more : list File) :
  validateFiles p (files ++ more)
  = (fst (validateFiles p files) ++ fst (validateFiles p more),
     snd (validateFiles p files) ++ snd (validateFiles p more))
  /\ (List.length (fst (validateFiles p files))
      + List.length (snd (validateFiles p files))
      = List.length files)%nat.
Proof.
  split.
  - unfold validateFiles. rewrite fold_left_app.
    destruct (fold_left (validateOne p) files ([], [])) as [vs es].
    rewrite <- (app_nil_r vs) at 1. rewrite <- (app_nil_r es) at 1.
    apply validate_fold_shift.
  - unfold validateFiles.
    assert (Hgen : forall acc,
               (List.length (fst (fold_left (validateOne p) files acc))
                + List.length (snd (fold_left (validateOne p) files acc))
                = List.length (fst acc) + List.length (snd acc)
                  + List.length files)%nat).
    { induction files as [|f files IH]; intros [vs es].
      - cbn. lia.
      - cbn [fold_left]. rewrite IH. unfold validateOne.
        destruct (negb (includes (acceptedTypes p) (file_type f)));
          [|destruct (file_size f >? maxFileSize p * 1024 * 1024)];
          cbn [fst snd List.length]; rewrite length_app; cbn; lia. }
    rewrite Hgen. reflexivity.
Qed.

Lemma filter_keeps_all {A : Type} (keep : A -> bool) (l : list A) :
  List.length (filter keep l) = List.length l <-> forallb keep l = true.
Proof.
  induction l as [|x l IH]; [cbn; tauto|].
  pose proof (filter_length_le keep l) as Hle.
  cbn [filter forallb]. destruct (keep x); cbn [List.length andb].
  - rewrite <- IH. split; intros H; lia.
  - split; [intros H; lia | discriminate].
Qed.

(** X11: validation reports no error exactly when every file has an
    accepted type and a size within [maxFileSize] megabytes. *)
Theorem no_validation_error_iff_all_acceptable
    (p : Props) (files : list File) :
  validationErrors p files = [] <-> forallb (acceptable p) files = true.
Proof.
  destruct (validateFiles_file_by_file p files []) as [_ Hcount].
  unfold validationErrors.
  rewrite validateFiles_valid in Hcount.
  rewrite <- filter_keeps_all. split; intros H.
  - rewrite H in Hcount. cbn in Hcount. lia.
  - destruct (snd (validateFiles p files)); [reflexivity|].
    cbn in Hcount. lia.
Qed.

(** *** Removing *)

Lemma dropIndex_past (index i : Z) (files : list File) :
  index < i -> dropIndex index i files = files.
Proof.
  revert i. induction files as [|f files IH]; intros i Hlt; [reflexivity|].
  cbn [dropIndex]. destruct (Z.eqb_spec i index); [lia|].
  rewrite IH; [reflexivity | lia].
Qed.

Lemma dropIndex_at (index i : Z) (files : list File) :
  i <= index ->
  dropIndex index i files
  = firstn (Z.to_nat (index - i)) files
    ++ skipn (S (Z.to_nat (index - i))) files.
Proof.
  revert i. induction files as [|f files IH]; intros i Hle.
  - cbn [dropIndex]. rewrite firstn_nil, skipn_nil. reflexivity.
  - cbn [dropIndex]. destruct (Z.eqb_spec i index) as [->|Hne].
    + rewrite Z.sub_diag. cbn [Z.to_nat firstn skipn app].
      apply dropIndex_past. lia.
    + rewrite (IH (i + 1)) by lia.
      replace (Z.to_nat (index - i)) with (S (Z.to_nat (index - (i + 1))))
        by lia.
      reflexivity.
Qed.

(** X12: [removeFile] removes exactly the file at the given position and
    keeps the others in order; a position outside the list changes no
    file; a field that held no list holds the empty list afterwards; the
    local errors are cleared and nothing else changes. *)
Theorem removeFile_removes_one_position (index : Z) (st : State) :
  let files := currentFilesOf st in
  let n := Z.to_nat index in
  removeFile index st
  = mkState (isDragOver st) []
            (Some (if (0 <=? index) && (index <? fileCount st)
                   then firstn n files ++ skipn (S n) files
                   else files))
            (inputValue st)
  /\ fileCount (removeFile index st)
     = (if (0 <=? index) && (index <? fileCount st)
        then fileCount st - 1 else fileCount st).
Proof.
  cbv zeta.
  assert (Hfiles :
            dropIndex index 0 (currentFilesOf st)
            = if (0 <=? index) && (index <? fileCount st)
              then firstn (Z.to_nat index) (currentFilesOf st)
                   ++ skipn (S (Z.to_nat index)) (currentFilesOf st)
              else currentFilesOf st).
  { unfold fileCount.
    destruct (Z.leb_spec 0 index) as [Hpos|Hneg]; cbn [andb].
    - rewrite dropIndex_at by lia. rewrite Z.sub_0_r.
      destruct (Z.ltb_spec index
                  (Z.of_nat (List.length (currentFilesOf st))));
        [reflexivity|].
      rewrite firstn_all2, skipn_all2 by lia. apply app_nil_r.
    - apply dropIndex_past. lia. }
  split.
  - unfold removeFile. rewrite Hfiles. reflexivity.
  - unfold fileCount at 1. unfold removeFile.
    cbn [currentFilesOf fieldValue]. rewrite Hfiles.
    unfold fileCount.
    destruct (Z.leb_spec 0 index) as [Hpos|Hneg]; cbn [andb];
      [|reflexivity].
    destruct (Z.ltb_spec index (Z.of_nat (List.length (currentFilesOf st))));
      [|reflexivity].
    rewrite length_app, length_firstn, length_skipn. lia.
Qed.

(** *** The limit *)

Lemma act_keeps_limit (p : Props) (st : State) (a : UserAction) :
  fileCount st <= maxFiles p ->
  fileCount (act p st a) <= maxFiles p.
Proof.
  intros Hfit.
  assert (Hshared : forall files st0,
             currentFilesOf st0 = currentFilesOf st ->
             fileCount (fst (acceptFiles p files st0)) <= maxFiles p).
  { intros files st0 Hsame. rewrite acceptFiles_spec. cbv zeta.
    rewrite Hsame.
    destruct (Z.gtb_spec
                (Z.of_nat (List.length (currentFilesOf st))
                 + Z.of_nat (List.length (filter (acceptable p) files)))
                (maxFiles p)) as [Hover|Hin]; cbn [fst].
    - unfold fileCount, currentFilesOf in *. cbn [fieldValue].
      rewrite <- Hsame in Hfit. exact Hfit.
    - unfold fileCount. cbn [currentFilesOf fieldValue].
      rewrite length_app. lia. }
  destruct a as [[[[|f files]|]|[files|]]|index| | |];
    cbn [act onFileEvent].
  - exact Hfit.
  - unfold handleDrop. apply Hshared. reflexivity.
  - exact Hfit.
  - unfold handleFileSelect.
    pose proof (Hshared files st eq_refl) as Hs.
    destruct (acceptFiles p files st) as [st1 continued].
    destruct continued; exact Hs.
  - exact Hfit.
  - destruct (removeFile_removes_one_position index st) as [_ Hcount].
    rewrite Hcount.
    destruct ((0 <=? index) && (index <? fileCount st)); lia.
  - unfold fileCount in *. cbn. pose proof (Zle_0_nat
      (List.length (currentFilesOf st))). lia.
  - exact Hfit.
  - exact Hfit.
Qed.

(** X13: a field that holds at most [maxFiles] files never holds more,
    whatever is dropped, selected, removed or cleared. *)
Theorem file_limit_is_kept
    (p : Props) (actions : list UserAction) (st : State) :
  fileCount st <= maxFiles p ->
  fileCount (fold_left (act p) actions st) <= maxFiles p.
Proof.
  revert st. induction actions as [|a rest IH]; intros st Hfit;
    [exact Hfit|].
  cbn [fold_left]. apply IH. apply act_keeps_limit. exact Hfit.
Qed.

Lemma file_limit_is_kept_sample :
  fileCount empty_form <= maxFiles defaultProps
  /\ fileCount
       (fold_left (act defaultProps)
          [Files (Dropped (Some [notes; photo; scan]));
           Files (Selected (Some [photo; photo])); Remove 1; DragOver]
          empty_form)
     <= maxFiles defaultProps.
Proof.
  assert (Hfit : fileCount empty_form <= maxFiles defaultProps)
    by (vm_compute; discriminate).
  split; [exact Hfit|].
  exact (file_limit_is_kept defaultProps
           [Files (Dropped (Some [notes; photo; scan]));
            Files (Selected (Some [photo; photo])); Remove 1; DragOver]
           empty_form Hfit).
Defined.

(** X14: a drop never touches the file input; a selection resets it,
    except the selection that is refused for exceeding [maxFiles], which
    leaves the chosen files in it. *)
Theorem file_input_reset (p : Props) (ev : FileEvent) (st : State) :
  inputValue (onFileEvent p ev st)
  = match ev with
    | Dropped _ => inputValue st
    | Selected (Some files) =>
        if over_limit p files st then inputValue st else ""%string
    | Selected None => ""%string
    end.
Proof.
  destruct ev as [[[|f files]|]|[files|]]; cbn [onFileEvent];
    try reflexivity.
  - unfold handleDrop. rewrite acceptFiles_spec. cbv zeta.
    destruct (_ >? _); reflexivity.
  - unfold handleFileSelect, over_limit. rewrite acceptFiles_spec. cbv zeta.
    destruct (_ >? _); reflexivity.
Qed.

End MultiImageMore.

(** ** Properties of the badge input *)

Module BadgesFacts.

Import Badges.

Lemma selected_after_filter (vs : list string) (v x : string) :
  existsb (String.eqb x)
    (filter (fun val => negb (String.eqb val v)) vs)
  = existsb (String.eqb x) vs && negb (String.eqb x v).
Proof.
  induction vs as [|y vs IH]; [reflexivity|].
  cbn [filter existsb].
  destruct (String.eqb_spec y v) as [->|Hyv]; cbn [negb existsb].
  - rewrite IH. destruct (String.eqb_spec x v); cbn;
      [rewrite andb_false_r|rewrite andb_true_r]; reflexivity.
  - rewrite IH. destruct (String.eqb_spec x y) as [->|Hxy]; cbn;
      [|reflexivity].
    destruct (String.eqb_spec y v); [contradiction|reflexivity].
Qed.

Lemma selected_after_push (vs : list string) (v x : string) :
  existsb (String.eqb x) (vs ++ [v])
  = existsb (String.eqb x) vs || String.eqb x v.
Proof.
  rewrite existsb_app. cbn. rewrite orb_false_r. reflexivity.
Qed.

(** X15: a click on an enabled badge flips whether its value is selected
    and changes no other value's selection; on a disabled input it changes
    nothing. *)
Theorem click_flips_one_badge
    (disabled : bool) (fieldValue : option (list string)) (v x : string) :
  isSelected (onClick disabled fieldValue v) x
  = if disabled then isSelected fieldValue x
    else if String.eqb x v then negb (isSelected fieldValue v)
         else isSelected fieldValue x.
Proof.
  unfold onClick. destruct disabled; [reflexivity|].
  cbv zeta.
  destruct (isSelected fieldValue v) eqn:Hsel; cbn [isSelected negb].
  - rewrite selected_after_filter.
    destruct (String.eqb_spec x v) as [->|Hne]; cbn [negb].
    + apply andb_false_r.
    + rewrite andb_true_r. destruct fieldValue; reflexivity.
  - rewrite selected_after_push.
    destruct (String.eqb_spec x v) as [->|Hne].
    + apply orb_true_r.
    + rewrite orb_false_r. destruct fieldValue; reflexivity.
Qed.

Lemma filter_out_absent (vs : list string) (v : string) :
  existsb (String.eqb v) vs = false ->
  filter (fun val => negb (String.eqb val v)) vs = vs.
Proof.
  induction vs as [|y vs IH]; [reflexivity|].
  cbn [existsb filter]. intros H. apply orb_false_iff in H.
  destruct H as [Hy Hvs]. rewrite String.eqb_sym in Hy.
  rewrite Hy. cbn [negb]. rewrite (IH Hvs). reflexivity.
Qed.

(** X16: clicking twice on a badge that was not selected gives back the
    selection as it was. *)
Theorem click_twice_restores_selection
    (fieldValue : option (list string)) (v : string) :
  isSelected fieldValue v = false ->
  onClick false (onClick false fieldValue v) v
  = Some (currentValuesOf fieldValue).
Proof.
  intros Hsel. unfold onClick at 2. cbv zeta. rewrite Hsel.
  unfold onClick. cbv zeta. cbn [isSelected currentValuesOf].
  rewrite selected_after_push, String.eqb_refl, orb_true_r.
  rewrite filter_app. cbn [filter]. rewrite String.eqb_refl. cbn [negb].
  rewrite app_nil_r. f_equal. apply filter_out_absent.
  destruct fieldValue; [exact Hsel | reflexivity].
Qed.

Lemma click_twice_restores_sample :
  isSelected (Some ["eco-friendly"; "best-seller"]) "fast-shipping" = false
  /\ onClick false
       (onClick false (Some ["eco-friendly"; "best-seller"]) "fast-shipping")
       "fast-shipping"
     = Some (currentValuesOf (Some ["eco-friendly"; "best-seller"])).
Proof.
  split; [reflexivity|].
  apply (click_twice_restores_selection
           (Some ["eco-friendly"; "best-seller"]) "fast-shipping").
  reflexivity.
Defined.

(** X17: a selection without repeated values stays without repeated
    values under clicks. *)
Theorem click_keeps_values_distinct
    (disabled : bool) (fieldValue : option (list string)) (v : string) :
  NoDup (currentValuesOf fieldValue) ->
  NoDup (currentValuesOf (onClick disabled fieldValue v)).
Proof.
  intros Hnd. unfold onClick. destruct disabled; [exact Hnd|].
  cbv zeta. cbn [currentValuesOf].
  destruct (isSelected fieldValue v) eqn:Hsel.
  - apply NoDup_filter. exact Hnd.
  - apply NoDup_app; [exact Hnd | repeat constructor; intros [] |].
    intros x Hin [Heq|[]]. subst x.
    assert (Hex : existsb (String.eqb v) (currentValuesOf fieldValue) = true).
    { apply existsb_exists. exists v. split; [exact Hin|].
      apply String.eqb_refl. }
    destruct fieldValue as [vs|]; cbn in *; congruence.
Qed.

Lemma click_keeps_values_distinct_sample :
  NoDup (currentValuesOf (Some ["eco-friendly"; "best-seller"]))
  /\ NoDup (currentValuesOf
              (onClick false (Some ["eco-friendly"; "best-seller"])
                       "eco-friendly")).
Proof.
  assert (Hnd : NoDup (currentValuesOf (Some ["eco-friendly"; "best-seller"]))).
  { repeat constructor; cbn; intros H;
      repeat (destruct H as [H|H]; [discriminate H|]); exact H. }
  split; [exact Hnd|].
  exact (click_keeps_values_distinct false
           (Some ["eco-friendly"; "best-seller"]) "eco-friendly" Hnd).
Defined.

(** X18: the keyboard does what the mouse does: Enter and the space bar
    act as a click, every other key leaves the selection alone. *)
Theorem keyboard_toggles_like_click
    (disabled : bool) (fieldValue : option (list string)) (v key : string) :
  onKeyDown disabled fieldValue v key
  = if (key =? "Enter") || (key =? " ")
    then onClick disabled fieldValue v
    else fieldValue.
Proof.
  unfold onKeyDown, onClick.
  destruct ((key =? "Enter") || (key =? " ")); [|reflexivity].
  destruct disabled; reflexivity.
Qed.

End BadgesFacts.
